(** * Persistence layer of the CMS: document models and their hooks

    A shallow embedding of the Mongoose schemas of the repository
    (Page, Media, User, Settings) and of the hooks and methods attached to
    them, with the properties the specification states about them.

    Conventions of the embedding:
    - a JavaScript [Number] holding a counter, a version number or a pixel
      size is an integer [Z]; a [Date] is its epoch time in milliseconds;
    - [null] and [undefined] are [None];
    - a string is a [string] of 8-bit characters; case mapping and white
      space are those of the ASCII range in [JsString], and the tags of
      Media are also treated over the string methods of the platform
      ([MediaTags]);
    - every [new Date()] and [Date.now()] of the source is an argument of
      the embedded function (the reading of the clock at that call);
    - a hook or method returns the document as it is in memory afterwards,
      together with how it completed where it can fail. *)

From Stdlib Require Import ZArith String Ascii List Bool Lia Sorted.
From stdpp Require Import base option list strings gmap.

Local Open Scope string_scope.
Local Open Scope Z_scope.
Local Open Scope list_scope.

(** ** JavaScript values shared by the models *)

Definition Date := Z.
Definition ObjectId := string.

(** Errors passed to [next] or thrown. *)
Inductive JsError :=
  | Error (message : string)
  | TypeError (message : string)
  | ValidationError (paths : list string).

(** How a hook or a method completes. *)
Inductive completion :=
  | Returned
  | Thrown (e : JsError).

Definition is_thrown (c : completion) : bool :=
  match c with Returned => false | Thrown _ => true end.

(** Values of a plain object ([toObject]) and of a stored document. *)
#[warnings="-register-all"]
Inductive JsValue :=
  | VNull
  | VBool (b : bool)
  | VNum (n : Z)
  | VStr (s : string)
  | VDate (d : Date)
  | VId (i : ObjectId)
  | VArr (l : list JsValue).

(** Truthiness of a string: only the empty string is falsy. *)
Definition truthy_string (s : string) : bool :=
  match s with EmptyString => false | String _ _ => true end.

(** Truthiness of a possibly absent string. *)
Definition truthy_opt_string (o : option string) : bool :=
  match o with None => false | Some s => truthy_string s end.

(** Truthiness of a possibly absent number: [null], [undefined] and [0]
    are falsy. *)
Definition truthy_opt_number (o : option Z) : bool :=
  match o with None => false | Some n => negb (n =? 0) end.

(** [a || b] on an optional object reference with a fallback. *)
Definition or_else {A} (a : option A) (b : A) : A :=
  match a with Some x => x | None => b end.

(** ** Updates sent to the document store *)

Module Store.

(** A stored document: dotted path to value. *)
Abbreviation Doc := (gmap string JsValue).

(** The update operators the models issue on one document. The store
    applies one update to one document atomically. *)
Inductive update :=
  | u_set (path : string) (v : JsValue)
  | u_inc (path : string) (n : Z).

(** [$inc] adds to the stored number, and creates the field with the
    amount when the field is absent. *)
Definition apply_update (u : update) (d : Doc) : Doc :=
  match u with
  | u_set path v => <[path := v]> d
  | u_inc path n =>
      match d !! path with
      | Some (VNum k) => <[path := VNum (k + n)]> d
      | Some _ => d
      | None => <[path := VNum n]> d
      end
  end.

Definition apply_updates (us : list update) (d : Doc) : Doc :=
  fold_left (fun d u => apply_update u d) us d.

(** Whether an update is an atomic increment of [path]. *)
Definition is_inc_of (path : string) (u : update) : bool :=
  match u with
  | u_inc p _ => bool_decide (p = path)
  | u_set _ _ => false
  end.

(** A collection, and [findByIdAndUpdate(id, update, { new: true })]: the
    update is applied to the document with that id, and the updated
    document is returned ([null] when there is none). *)
Definition findByIdAndUpdate (id : ObjectId) (u : update)
    (coll : gmap ObjectId Doc) : gmap ObjectId Doc * option Doc :=
  match coll !! id with
  | Some d => let d' := apply_update u d in (<[id := d']> coll, Some d')
  | None => (coll, None)
  end.

End Store.

(** ** Page model (src/models/Tag.js, second document) *)

Module Page.

Inductive Status := draft | published | scheduled | archived.

Definition Status_eqb (a b : Status) : bool :=
  match a, b with
  | draft, draft | published, published
  | scheduled, scheduled | archived, archived => true
  | _, _ => false
  end.

(** An element of [advancedFeatures.versionHistory]. *)
Record VersionEntry := mkVersionEntry {
  ver_versionNumber : Z;
  ver_title : string;
  ver_content : string;
  ver_author : ObjectId;
  ver_createdAt : Date;
  ver_changes : option string
}.

Record Seo := mkSeo {
  metaTitle : string;
  metaDescription : string
}.

Record AdvancedFeatures := mkAdvancedFeatures {
  enableVersioning : bool;
  versionHistory : option (list VersionEntry);
  currentVersion : Z
}.

Record t := mkPage {
  title : string;
  slug : string;
  content : string;
  excerpt : string;
  author : ObjectId;
  status : Status;
  publishedAt : option Date;
  seo : Seo;
  advancedFeatures : AdvancedFeatures;
  pageViews : Z;
  updatedAt : Date;
  lastModifiedBy : option ObjectId
}.

(** Field assignments. *)
Definition set_title (v : string) (p : t) : t :=
  mkPage v (slug p) (content p) (excerpt p) (author p) (status p)
    (publishedAt p) (seo p) (advancedFeatures p) (pageViews p)
    (updatedAt p) (lastModifiedBy p).

Definition set_content (v : string) (p : t) : t :=
  mkPage (title p) (slug p) v (excerpt p) (author p) (status p)
    (publishedAt p) (seo p) (advancedFeatures p) (pageViews p)
    (updatedAt p) (lastModifiedBy p).

Definition set_status (v : Status) (p : t) : t :=
  mkPage (title p) (slug p) (content p) (excerpt p) (author p) v
    (publishedAt p) (seo p) (advancedFeatures p) (pageViews p)
    (updatedAt p) (lastModifiedBy p).

Definition set_publishedAt (v : option Date) (p : t) : t :=
  mkPage (title p) (slug p) (content p) (excerpt p) (author p) (status p)
    v (seo p) (advancedFeatures p) (pageViews p)
    (updatedAt p) (lastModifiedBy p).

Definition set_seo (v : Seo) (p : t) : t :=
  mkPage (title p) (slug p) (content p) (excerpt p) (author p) (status p)
    (publishedAt p) v (advancedFeatures p) (pageViews p)
    (updatedAt p) (lastModifiedBy p).

Definition set_advancedFeatures (v : AdvancedFeatures) (p : t) : t :=
  mkPage (title p) (slug p) (content p) (excerpt p) (author p) (status p)
    (publishedAt p) (seo p) v (pageViews p)
    (updatedAt p) (lastModifiedBy p).

Definition set_updatedAt (v : Date) (p : t) : t :=
  mkPage (title p) (slug p) (content p) (excerpt p) (author p) (status p)
    (publishedAt p) (seo p) (advancedFeatures p) (pageViews p)
    v (lastModifiedBy p).

(** The clock readings of one [save]: the two [new Date()] of the pre-save
    hook and the one of the post-save hook. *)
Record SaveTimes := mkSaveTimes {
  at_updatedAt : Date;
  at_publishedAt : Date;
  at_version : Date
}.

(** [PageSchema.pre('save')]. A [Date] object is always truthy, so
    [!this.publishedAt] holds exactly when the field is [null]. *)
Definition pre_save (tm : SaveTimes) (this : t) : t :=
  let this := set_updatedAt (at_updatedAt tm) this in
  let this :=
    if Status_eqb (status this) published && negb (bool_decide (is_Some (publishedAt this)))
    then set_publishedAt (Some (at_publishedAt tm)) this
    else this in
  let this :=
    if negb (truthy_string (metaTitle (seo this))) && truthy_string (title this)
    then set_seo (mkSeo (substring 0 60 (title this)) (metaDescription (seo this))) this
    else this in
  let this :=
    if negb (truthy_string (metaDescription (seo this))) && truthy_string (excerpt this)
    then set_seo (mkSeo (metaTitle (seo this)) (substring 0 160 (excerpt this))) this
    else this in
  this.

(** [PageSchema.post('save')]. [isModified_content] is what Mongoose's
    [this.isModified('content')] answers when the hook runs; in a save
    Mongoose has forgotten the modified paths by then and the answer is
    [false] (see [PageMongoose.save]). *)
Definition post_save (now : Date) (isModified_content : bool) (doc : t) : t :=
  if enableVersioning (advancedFeatures doc) && isModified_content then
    let history :=
      match versionHistory (advancedFeatures doc) with
      | None => []
      | Some h => h
      end in
    let entry :=
      mkVersionEntry (currentVersion (advancedFeatures doc)) (title doc)
        (content doc) (or_else (lastModifiedBy doc) (author doc)) now None in
    set_advancedFeatures
      (mkAdvancedFeatures (enableVersioning (advancedFeatures doc))
         (Some (history ++ [entry]))
         (currentVersion (advancedFeatures doc) + 1)) doc
  else doc.

(** [this.save()] on a document that passes the schema's field validators:
    the pre-save hook, the write, the post-save hook. *)
Definition save (tm : SaveTimes) (isModified_content : bool) (this : t) : t :=
  post_save (at_version tm) isModified_content (pre_save tm this).

(** [PageSchema.methods.publish]. *)
Definition publish (now : Date) (tm : SaveTimes) (isModified_content : bool)
    (this : t) : t :=
  let this := set_status published this in
  let this := set_publishedAt (Some now) this in
  save tm isModified_content this.

(** [PageSchema.methods.archive]. *)
Definition archive (tm : SaveTimes) (isModified_content : bool) (this : t) : t :=
  save tm isModified_content (set_status archived this).

(** [PageSchema.methods.revert]. [Array.prototype.find] returns the first
    element that satisfies the callback; on an absent array the call
    itself throws. *)
Definition revert (tm : SaveTimes) (isModified_content : bool)
    (versionNumber : Z) (this : t) : completion * t :=
  match versionHistory (advancedFeatures this) with
  | None => (Thrown (TypeError "Cannot read properties of undefined"), this)
  | Some h =>
      match List.find (fun v => ver_versionNumber v =? versionNumber) h with
      | None => (Thrown (Error "Version not found"), this)
      | Some version =>
          let this := set_content (ver_content version) this in
          let this := set_title (ver_title version) this in
          (Returned, save tm isModified_content this)
      end
  end.

(** [PageSchema.statics.incrementPageView]: the update it sends, and the
    call on a collection of pages. *)
Definition incrementPageView_update : Store.update :=
  Store.u_inc "analytics.pageViews" 1.

Definition incrementPageView (pageId : ObjectId)
    (coll : gmap ObjectId Store.Doc) : gmap ObjectId Store.Doc * option Store.Doc :=
  Store.findByIdAndUpdate pageId incrementPageView_update coll.

(** The version history as a list, an absent array holding no entry. *)
Definition history (p : t) : list VersionEntry :=
  match versionHistory (advancedFeatures p) with
  | None => []
  | Some h => h
  end.

End Page.

(** ** String methods used by the hooks *)

Module JsString.

(** [String.prototype.toLowerCase] on one character. *)
Definition lower_char (c : ascii) : ascii :=
  let n := N_of_ascii c in
  if ((65 <=? n) && (n <=? 90))%N then ascii_of_N (n + 32) else c.

Fixpoint toLowerCase (s : string) : string :=
  match s with
  | EmptyString => EmptyString
  | String c s' => String (lower_char c) (toLowerCase s')
  end.

(** White space removed by [trim]: tab, line feed, vertical tab, form feed,
    carriage return and space. *)
Definition is_white (c : ascii) : bool :=
  let n := N_of_ascii c in
  (((9 <=? n) && (n <=? 13)) || (n =? 32))%N.

Fixpoint trimStart (s : string) : string :=
  match s with
  | EmptyString => EmptyString
  | String c s' => if is_white c then trimStart s' else s
  end.

Fixpoint trimEnd (s : string) : string :=
  match s with
  | EmptyString => EmptyString
  | String c s' =>
      match trimEnd s' with
      | EmptyString => if is_white c then EmptyString else String c EmptyString
      | r => String c r
      end
  end.

Definition trim (s : string) : string := trimEnd (trimStart s).

End JsString.

(** ** The built-in [Set], as far as the hooks use it

    A [Set] keeps its elements in insertion order; [add] of an element
    already present changes nothing; spreading a set lists its elements
    in that order. *)

Module JsSet.

Definition add (x : string) (s : list string) : list string :=
  if bool_decide (x ∈ s) then s else s ++ [x].

(** [new Set(iterable)]: the elements are added one by one. *)
Definition new_Set (l : list string) : list string :=
  fold_left (fun s x => add x s) l [].

(** [[...set]]. *)
Definition spread (s : list string) : list string := s.

(** The position of the first occurrence of [x] in [l] (the length of [l]
    when there is none), to state the order a set lists its elements in. *)
Fixpoint first_index (x : string) (l : list string) : nat :=
  match l with
  | [] => 0%nat
  | y :: l' => if bool_decide (y = x) then 0%nat else S (first_index x l')
  end.

(** [l] without the later occurrences of its elements. *)
Fixpoint first_occurrences (l : list string) : list string :=
  match l with
  | [] => []
  | x :: l' => x :: List.filter (fun y => negb (bool_decide (y = x))) (first_occurrences l')
  end.

End JsSet.

(** ** Media model (src/models/Media.js, first document) *)

Module Media.

Inductive MediaType := image | video | audio | document | other.

Definition MediaType_eqb (a b : MediaType) : bool :=
  match a, b with
  | image, image | video, video | audio, audio
  | document, document | other, other => true
  | _, _ => false
  end.

Record ImageMetadata := mkImageMetadata {
  width : option Z;
  height : option Z
}.

Record Analytics := mkAnalytics {
  views : Z;
  downloads : Z;
  shares : Z
}.

Record t := mkMedia {
  title : string;
  tags : list string;
  mediaType : MediaType;
  imageMetadata : ImageMetadata;
  analytics : Analytics
}.

Definition set_tags (v : list string) (m : t) : t :=
  mkMedia (title m) v (mediaType m) (imageMetadata m) (analytics m).

Definition set_analytics (v : Analytics) (m : t) : t :=
  mkMedia (title m) (tags m) (mediaType m) (imageMetadata m) v.

(** [x <= 0] on a field that is a number or [null] ([null] converts
    to 0). *)
Definition le_zero (o : option Z) : bool :=
  match o with
  | Some n => n <=? 0
  | None => true
  end.

(** The callback of [this.tags.map]. *)
Definition normalize_tag (tag : string) : string :=
  JsString.trim (JsString.toLowerCase tag).

(** [MediaSchema.pre('save')]: the completion is the argument given to
    [next]. The nested [imageMetadata] object always exists. *)
Definition pre_save (this : t) : completion * t :=
  let this :=
    if (0 <? length (tags this))%nat
    then set_tags (JsSet.spread (JsSet.new_Set (map normalize_tag (tags this)))) this
    else this in
  if MediaType_eqb (mediaType this) image then
    if truthy_opt_number (width (imageMetadata this)) && le_zero (width (imageMetadata this))
    then (Thrown (Error "Image width must be greater than 0"), this)
    else if truthy_opt_number (height (imageMetadata this)) && le_zero (height (imageMetadata this))
    then (Thrown (Error "Image height must be greater than 0"), this)
    else (Returned, this)
  else (Returned, this).

(** The write of a [save()]: Mongoose sends a [$set] of each path whose
    value in memory differs from the loaded one. *)
Definition modified_paths (loaded this : t) : list Store.update :=
  (if bool_decide (tags loaded = tags this) then []
   else [Store.u_set "tags" (VArr (map VStr (tags this)))]) ++
  (if bool_decide (views (analytics loaded) = views (analytics this)) then []
   else [Store.u_set "analytics.views" (VNum (views (analytics this)))]) ++
  (if bool_decide (downloads (analytics loaded) = downloads (analytics this)) then []
   else [Store.u_set "analytics.downloads" (VNum (downloads (analytics this)))]) ++
  (if bool_decide (shares (analytics loaded) = shares (analytics this)) then []
   else [Store.u_set "analytics.shares" (VNum (shares (analytics this)))]).

(** [this.save()] on a document loaded as [loaded] and now [this]: the
    pre-save hook, then the write unless the hook failed. The result is
    the completion, the document in memory and the updates sent. *)
Definition save (loaded this : t) : completion * t * list Store.update :=
  let '(c, this) := pre_save this in
  match c with
  | Returned => (Returned, this, modified_paths loaded this)
  | Thrown e => (Thrown e, this, [])
  end.

(** [MediaSchema.methods.incrementViews], called on a document as it was
    loaded. *)
Definition incrementViews (this : t) : completion * t * list Store.update :=
  let a := analytics this in
  save this (set_analytics (mkAnalytics (views a + 1) (downloads a) (shares a)) this).

(** [MediaSchema.methods.incrementDownloads]. *)
Definition incrementDownloads (this : t) : completion * t * list Store.update :=
  let a := analytics this in
  save this (set_analytics (mkAnalytics (views a) (downloads a + 1) (shares a)) this).

(** [MediaSchema.methods.incrementShares]. *)
Definition incrementShares (this : t) : completion * t * list Store.update :=
  let a := analytics this in
  save this (set_analytics (mkAnalytics (views a) (downloads a) (shares a + 1)) this).

(** The three counters, to speak of the three methods at once. *)
Inductive counter := c_views | c_downloads | c_shares.

Definition counter_path (c : counter) : string :=
  match c with
  | c_views => "analytics.views"
  | c_downloads => "analytics.downloads"
  | c_shares => "analytics.shares"
  end.

Definition counter_of (c : counter) (a : Analytics) : Z :=
  match c with
  | c_views => views a
  | c_downloads => downloads a
  | c_shares => shares a
  end.

Definition increment (c : counter) : t -> completion * t * list Store.update :=
  match c with
  | c_views => incrementViews
  | c_downloads => incrementDownloads
  | c_shares => incrementShares
  end.

(** The stored form of the paths above. *)
Definition toStored (m : t) : Store.Doc :=
  <["tags" := VArr (map VStr (tags m))]>
  (<["analytics.views" := VNum (views (analytics m))]>
  (<["analytics.downloads" := VNum (downloads (analytics m))]>
  (<["analytics.shares" := VNum (shares (analytics m))]> ∅))).

End Media.

(** ** User model (src/models/Media.js, second document) *)

Module User.

Inductive Role := user | admin | moderator.

Definition Role_name (r : Role) : string :=
  match r with user => "user" | admin => "admin" | moderator => "moderator" end.

(** Fields declared [select: false] or without a default may be absent;
    [lastLogin], [profileImage] and [bio] default to [null]. *)
Record t := mkUser {
  _id : ObjectId;
  username : string;
  email : string;
  password : option string;
  firstName : string;
  lastName : string;
  role : Role;
  isActive : bool;
  emailVerified : bool;
  verificationToken : option string;
  passwordResetToken : option string;
  passwordResetExpires : option Date;
  lastLogin : option Date;
  profileImage : option string;
  bio : option string;
  createdAt : Date;
  updatedAt : Date;
  __v : Z
}.

Definition set_passwordResetToken (v : option string) (u : t) : t :=
  mkUser (_id u) (username u) (email u) (password u) (firstName u)
    (lastName u) (role u) (isActive u) (emailVerified u)
    (verificationToken u) v (passwordResetExpires u) (lastLogin u)
    (profileImage u) (bio u) (createdAt u) (updatedAt u) (__v u).

Definition set_passwordResetExpires (v : option Date) (u : t) : t :=
  mkUser (_id u) (username u) (email u) (password u) (firstName u)
    (lastName u) (role u) (isActive u) (emailVerified u)
    (verificationToken u) (passwordResetToken u) v (lastLogin u)
    (profileImage u) (bio u) (createdAt u) (updatedAt u) (__v u).

(** A key is set in the plain object only when the path has a value. *)
Definition put_defined (k : string) (o : option JsValue)
    (m : gmap string JsValue) : gmap string JsValue :=
  match o with
  | Some v => <[k := v]> m
  | None => m
  end.

(** A path whose default is [null] is always set. *)
Definition or_null (o : option JsValue) : JsValue :=
  match o with Some v => v | None => VNull end.

(** [this.toObject()]: a fresh plain object holding the document's
    paths. *)
Definition toObject (this : t) : gmap string JsValue :=
  <["_id" := VId (_id this)]>
  (<["username" := VStr (username this)]>
  (<["email" := VStr (email this)]>
  (put_defined "password" (VStr <$> password this)
  (<["firstName" := VStr (firstName this)]>
  (<["lastName" := VStr (lastName this)]>
  (<["role" := VStr (Role_name (role this))]>
  (<["isActive" := VBool (isActive this)]>
  (<["emailVerified" := VBool (emailVerified this)]>
  (put_defined "verificationToken" (VStr <$> verificationToken this)
  (put_defined "passwordResetToken" (VStr <$> passwordResetToken this)
  (put_defined "passwordResetExpires" (VDate <$> passwordResetExpires this)
  (<["lastLogin" := or_null (VDate <$> lastLogin this)]>
  (<["profileImage" := or_null (VStr <$> profileImage this)]>
  (<["bio" := or_null (VStr <$> bio this)]>
  (<["createdAt" := VDate (createdAt this)]>
  (<["updatedAt" := VDate (updatedAt this)]>
  (<["__v" := VNum (__v this)]> ∅))))))))))))))))).

(** [userSchema.methods.getPublicProfile]. *)
Definition getPublicProfile (this : t) : gmap string JsValue :=
  let userObject := toObject this in
  let userObject := delete "password" userObject in
  let userObject := delete "verificationToken" userObject in
  let userObject := delete "passwordResetToken" userObject in
  let userObject := delete "passwordResetExpires" userObject in
  userObject.

(** The keys [getPublicProfile] deletes. *)
Definition secret_keys : list string :=
  ["password"; "verificationToken"; "passwordResetToken"; "passwordResetExpires"].

(** [Buffer.prototype.toString('hex')]: two lower-case digits a byte. *)
Definition hex_digit (n : N) : ascii :=
  if (n <? 10)%N then ascii_of_N (48 + n) else ascii_of_N (87 + n).

Fixpoint toString_hex (l : list Byte.byte) : string :=
  match l with
  | [] => EmptyString
  | b :: l' =>
      String (hex_digit (Byte.to_N b / 16))
        (String (hex_digit (Byte.to_N b mod 16)) (toString_hex l'))
  end.

(** Milliseconds in [n] minutes, the unit of [Date.now()]. *)
Definition minutes (n : Z) : Z := n * 60 * 1000.

Section ResetToken.

(** [crypto.createHash('sha256').update(s).digest('hex')], a function of
    the [crypto] module of the platform. *)
Variable sha256_hex : string -> string.

(** [userSchema.methods.generatePasswordResetToken]. [randomBytes32] is
    what [crypto.randomBytes(32)] returned and [now] is [Date.now()].
    The result is the returned value and the document in memory. *)
Definition generatePasswordResetToken (randomBytes32 : list Byte.byte)
    (now : Date) (this : t) : string * t :=
  let resetToken := toString_hex randomBytes32 in
  let this := set_passwordResetToken (Some (sha256_hex resetToken)) this in
  let this := set_passwordResetExpires (Some (now + 30 * 60 * 1000)) this in
  (resetToken, this).

End ResetToken.

End User.

(** ** Regular expressions of the schema's [match] validators

    [RegExp.prototype.test] with a pattern anchored at both ends decides
    whether the whole string is in the pattern's language; it is computed
    here with derivatives. *)

Module Regex.

Inductive t :=
  | Empty
  | Eps
  | Chr (p : ascii -> bool)
  | Cat (a b : t)
  | Alt (a b : t)
  | Star (a : t).

Fixpoint nullable (r : t) : bool :=
  match r with
  | Empty => false
  | Eps => true
  | Chr _ => false
  | Cat a b => nullable a && nullable b
  | Alt a b => nullable a || nullable b
  | Star _ => true
  end.

(** Constructors that drop the empty language. *)
Definition cat (a b : t) : t :=
  match a, b with
  | Empty, _ | _, Empty => Empty
  | Eps, _ => b
  | _, _ => Cat a b
  end.

Definition alt (a b : t) : t :=
  match a, b with
  | Empty, _ => b
  | _, Empty => a
  | _, _ => Alt a b
  end.

Fixpoint deriv (c : ascii) (r : t) : t :=
  match r with
  | Empty => Empty
  | Eps => Empty
  | Chr p => if p c then Eps else Empty
  | Cat a b =>
      if nullable a then alt (cat (deriv c a) b) (deriv c b)
      else cat (deriv c a) b
  | Alt a b => alt (deriv c a) (deriv c b)
  | Star a => cat (deriv c a) (Star a)
  end.

Fixpoint test (r : t) (s : string) : bool :=
  match s with
  | EmptyString => nullable r
  | String c s' => test (deriv c r) s'
  end.

(** The language of a pattern: the strings it matches as a whole. *)
Inductive lang : t -> string -> Prop :=
  | lang_eps : lang Eps EmptyString
  | lang_chr p c : p c = true -> lang (Chr p) (String c EmptyString)
  | lang_cat a b s1 s2 : lang a s1 -> lang b s2 -> lang (Cat a b) (s1 ++ s2)%string
  | lang_alt_l a b s : lang a s -> lang (Alt a b) s
  | lang_alt_r a b s : lang b s -> lang (Alt a b) s
  | lang_star_nil a : lang (Star a) EmptyString
  | lang_star_cons a s1 s2 :
      lang a s1 -> lang (Star a) s2 -> lang (Star a) (s1 ++ s2)%string.

(** [r+], [r?] and a literal character. *)
Definition plus (r : t) : t := Cat r (Star r).
Definition opt (r : t) : t := Alt Eps r.
Definition lit (c : ascii) : t := Chr (fun x => bool_decide (x = c)).

(** The class [\w]: letters, digits and the underscore. *)
Definition is_word (c : ascii) : bool :=
  let n := N_of_ascii c in
  (((48 <=? n) && (n <=? 57)) || ((65 <=? n) && (n <=? 90))
   || ((97 <=? n) && (n <=? 122)) || (n =? 95))%N.

Definition word : t := Chr is_word.

(** The class [[\.-]]. *)
Definition dot_or_dash : t :=
  Chr (fun x => bool_decide (x = "."%char) || bool_decide (x = "-"%char)).

End Regex.

(** ** Settings model (src/unnamed/part_001) *)

Module Settings.

Record Contact := mkContact {
  email : option string;
  phone : option string
}.

Record SeoDefaults := mkSeoDefaults {
  siteTitle : option string;
  siteDescription : option string
}.

Record Design := mkDesign {
  theme : option string;
  fontSize : option string
}.

Record Healthcare := mkHealthcare {
  facilityName : option string;
  facilityType : option string
}.

(** The paths that carry a validator or are read by the pre-save hook. *)
Record t := mkSettings {
  contact : Contact;
  seo : SeoDefaults;
  design : Design;
  passwordMinLength : Z;
  imageQuality : Z;
  healthcare : Healthcare;
  smtpProvider : option string;
  backupFrequency : option string
}.

(** [/^\w+([\.-]?\w+)*@\w+([\.-]?\w+)*(\.\w{2,3})+$/] *)
Definition email_pattern : Regex.t :=
  let words := Regex.plus Regex.word in
  let name := Regex.Cat words
                (Regex.Star (Regex.Cat (Regex.opt Regex.dot_or_dash) words)) in
  let suffix := Regex.Cat (Regex.lit ".")
                  (Regex.Cat Regex.word
                     (Regex.Cat Regex.word (Regex.opt Regex.word))) in
  Regex.Cat name (Regex.Cat (Regex.lit "@") (Regex.Cat name (Regex.plus suffix))).

(** Mongoose's validators on a [String] path. [required] rejects an
    absent or empty string; the others accept an absent value, and [match]
    accepts the empty string as well. *)
Definition required (o : option string) : bool := truthy_opt_string o.

Definition matches (r : Regex.t) (o : option string) : bool :=
  match o with
  | None => true
  | Some s => negb (truthy_string s) || Regex.test r s
  end.

Definition enum (values : list string) (o : option string) : bool :=
  match o with
  | None => true
  | Some s => bool_decide (s ∈ values)
  end.

Definition maxlength (n : nat) (o : option string) : bool :=
  match o with
  | None => true
  | Some s => (String.length s <=? n)%nat
  end.

(** The declared validators, each with the path it guards, in the order
    of the schema: those of the contact block, then the others. *)
Definition contact_validators (this : t) : list (string * bool) :=
  [ ("contact.email", required (email (contact this)));
    ("contact.email", matches email_pattern (email (contact this)));
    ("contact.phone", required (phone (contact this))) ].

Definition other_validators (this : t) : list (string * bool) :=
  [ ("seo.siteTitle", required (siteTitle (seo this)));
    ("seo.siteDescription", required (siteDescription (seo this)));
    ("seo.siteDescription", maxlength 160 (siteDescription (seo this)));
    ("design.theme", enum ["light"; "dark"; "auto"] (theme (design this)));
    ("design.fontSize", enum ["small"; "medium"; "large"] (fontSize (design this)));
    ("security.passwordMinLength", 6 <=? passwordMinLength this);
    ("performance.imageQuality", 1 <=? imageQuality this);
    ("performance.imageQuality", imageQuality this <=? 100);
    ("healthcare.facilityName", required (facilityName (healthcare this)));
    ("healthcare.facilityType",
       enum ["clinic"; "hospital"; "wellness_center"; "therapy_center";
             "laboratory"; "pharmacy"; "other"] (facilityType (healthcare this)));
    ("notifications.smtpProvider",
       enum ["smtp"; "sendgrid"; "mailgun"; "aws_ses"; "other"] (smtpProvider this));
    ("maintenance.backupFrequency",
       enum ["daily"; "weekly"; "monthly"] (backupFrequency this)) ].

Definition validators (this : t) : list (string * bool) :=
  contact_validators this ++ other_validators this.

(** The paths of the validators that fail. *)
Definition failing (vs : list (string * bool)) : list string :=
  map fst (List.filter (fun v => negb (snd v)) vs).

Definition validate (this : t) : list string := failing (validators this).

(** [SettingsSchema.pre('save')]: the argument given to [next]. *)
Definition pre_save (this : t) : completion :=
  if negb (truthy_opt_string (email (contact this)))
     && negb (truthy_opt_string (phone (contact this)))
  then Thrown (Error "At least email or phone contact information must be provided")
  else if passwordMinLength this <? 6
  then Thrown (Error "Password minimum length must be at least 6 characters")
  else if (imageQuality this <? 1) || (100 <? imageQuality this)
  then Thrown (Error "Image quality must be between 1 and 100")
  else Returned.

(** [this.save()]: Mongoose validates the document against the schema
    first and runs the pre-save hook only when validation passes. *)
Definition save (this : t) : completion :=
  match validate this with
  | [] => pre_save this
  | paths => Thrown (ValidationError paths)
  end.

(** The error of the hook's contact check. *)
Definition contact_error : JsError :=
  Error "At least email or phone contact information must be provided".

(** Whether a completion reports a failure about the contact block: the
    hook's contact error, or a validation failure on a contact path. *)
Definition is_contact_path (path : string) : bool :=
  bool_decide (path = "contact.email") || bool_decide (path = "contact.phone").

Definition fails_on_contact (c : completion) : bool :=
  match c with
  | Returned => false
  | Thrown (ValidationError paths) => existsb is_contact_path paths
  | Thrown (Error m) =>
      bool_decide (m = "At least email or phone contact information must be provided")
  | Thrown (TypeError _) => false
  end.

End Settings.

(** ** Page model: virtuals, the slug validator and the other methods *)

Module PageMore.
Import Page.

(** [PageSchema.virtual('isPublished')]; [now] is [new Date()]. In a
    relational comparison a [Date] converts to its epoch time and [null]
    to 0. *)
Definition isPublished (now : Date) (this : t) : bool :=
  Status_eqb (status this) published
  && (match publishedAt this with Some d => d | None => 0 end <=? now).

(** [String.prototype.split(/\s+/)]: the pieces between the maximal runs
    of white space, with an empty piece before a leading run and after a
    trailing one. [in_run] tells that the last character read was white
    space and [piece] is the piece read so far. *)
Fixpoint split_go (in_run : bool) (piece : string) (s : string) : list string :=
  match s with
  | EmptyString => [piece]
  | String c s' =>
      if JsString.is_white c
      then if in_run then split_go true piece s'
           else piece :: split_go true EmptyString s'
      else split_go false (piece +:+ String c EmptyString) s'
  end.

Definition split_white (s : string) : list string :=
  split_go false EmptyString s.

(** [PageSchema.virtual('readTime')]. The division of a piece count by
    200 is exact in a [Number] up to far beyond the length of a string,
    so [Math.ceil] of it is the integer ceiling. *)
Definition readTime (this : t) : Z :=
  let wordsPerMinute := 200 in
  let wordCount := Z.of_nat (length (split_white (content this))) in
  (wordCount + wordsPerMinute - 1) / wordsPerMinute.

(** The validator of [slug]: [/^[a-z0-9]+(?:-[a-z0-9]+)*$/]. *)
Definition is_lower_alnum (c : ascii) : bool :=
  let n := N_of_ascii c in
  (((48 <=? n) && (n <=? 57)) || ((97 <=? n) && (n <=? 122)))%N.

Definition slug_pattern : Regex.t :=
  let words := Regex.plus (Regex.Chr is_lower_alnum) in
  Regex.Cat words (Regex.Star (Regex.Cat (Regex.lit "-") words)).

Definition slug_validator (v : string) : bool := Regex.test slug_pattern v.

(** A reading of a slug from left to right; [in_word] tells that the last
    character read was a letter or a digit. *)
Fixpoint slug_run (in_word : bool) (s : string) : bool :=
  match s with
  | EmptyString => in_word
  | String c s' =>
      if is_lower_alnum c then slug_run true s'
      else if in_word && bool_decide (c = "-"%char) then slug_run false s'
      else false
  end.

(** What is left of [slug_pattern] to match inside a word. *)
Definition slug_pattern_in_word : Regex.t :=
  let words := Regex.plus (Regex.Chr is_lower_alnum) in
  Regex.Cat (Regex.Star (Regex.Chr is_lower_alnum))
    (Regex.Star (Regex.Cat (Regex.lit "-") words)).

(** The paths of [advancedFeatures] that [addRelatedPage] and
    [toggleComments] assign, beside the page. *)
Record Doc := mkDoc {
  page : Page.t;
  relatedPages : list ObjectId;
  enableComments : bool
}.

(** [PageSchema.methods.addRelatedPage]. *)
Definition addRelatedPage (tm : SaveTimes) (isModified_content : bool)
    (pageId : ObjectId) (this : Doc) : Doc :=
  let related :=
    if negb (bool_decide (pageId ∈ relatedPages this))
    then relatedPages this ++ [pageId]
    else relatedPages this in
  mkDoc (save tm isModified_content (page this)) related (enableComments this).

(** [PageSchema.methods.toggleComments]. *)
Definition toggleComments (tm : SaveTimes) (isModified_content : bool)
    (enabled : bool) (this : Doc) : Doc :=
  mkDoc (save tm isModified_content (page this)) (relatedPages this) enabled.

(** The version numbers of the history grow along the array and stay
    below the current version. *)
Definition history_ordered (p : t) : Prop :=
  StronglySorted Z.lt (map ver_versionNumber (history p))
  /\ Forall (fun v => ver_versionNumber v < currentVersion (advancedFeatures p))
       (history p).

End PageMore.

(** ** Media model: soft delete and the query builders *)

Module MediaMore.
Import Media.

(** The media document with the paths that [softDelete] and [restore]
    assign. *)
Record Doc := mkDoc {
  media : Media.t;
  isActive : bool;
  deletedBy : option ObjectId;
  deletedAt : option Date
}.

(** [this.save()]: the completion of the pre-save hook and the document
    in memory. *)
Definition save (this : Doc) : completion * Doc :=
  let '(c, m) := pre_save (media this) in
  (c, mkDoc m (isActive this) (deletedBy this) (deletedAt this)).

(** [MediaSchema.methods.softDelete]; [now] is [new Date()]. *)
Definition softDelete (userId : ObjectId) (now : Date) (this : Doc)
    : completion * Doc :=
  save (mkDoc (media this) false (Some userId) (Some now)).

(** [MediaSchema.methods.restore]. *)
Definition restore (this : Doc) : completion * Doc :=
  save (mkDoc (media this) true None None).

(** The stored document after a method was called on a document loaded
    from [stored]: the document in memory when the save went through,
    [stored] when the hook rejected the save. *)
Definition stored_after (stored : Doc) (r : completion * Doc) : Doc :=
  match fst r with
  | Returned => snd r
  | Thrown _ => stored
  end.

(** A query: the conditions given to [find] and the argument of [sort]. *)
Record Query := mkQuery {
  conditions : gmap string JsValue;
  sort : list (string * Z)
}.

(** [{ ...fixed, ...filter }]: a key of [filter] replaces the same key of
    the conditions written before the spread. *)
Definition spread_after (fixed filter : gmap string JsValue)
    : gmap string JsValue :=
  filter ∪ fixed.

(** [MediaSchema.statics.getByCategory]. *)
Definition getByCategory (category : string) (filter : gmap string JsValue)
    : Query :=
  mkQuery
    (spread_after
       (<["category" := VStr category]> (<["isActive" := VBool true]> ∅))
       filter)
    [("createdAt", -1)].

(** [MediaSchema.statics.getPublicMedia]. *)
Definition getPublicMedia (filter : gmap string JsValue) : Query :=
  mkQuery
    (spread_after
       (<["isPublic" := VBool true]>
        (<["isActive" := VBool true]>
         (<["status" := VStr "approved"]> ∅)))
       filter)
    [("createdAt", -1)].

End MediaMore.

(** ** Reading a token back, and the character classes of a pattern *)

Module UserMore.

(** The digits [toString('hex')] writes. *)
Definition is_hex_digit (c : ascii) : bool :=
  let n := N_of_ascii c in
  (((48 <=? n) && (n <=? 57)) || ((97 <=? n) && (n <=? 102)))%N.

(** The value of a digit, and the bytes of a string of digits, two
    digits a byte ([Buffer.from(s, 'hex')]). *)
Definition hex_value (c : ascii) : N :=
  let n := N_of_ascii c in
  if (n <? 58)%N then (n - 48)%N else (n - 87)%N.

Fixpoint from_hex (s : string) : option (list Byte.byte) :=
  match s with
  | EmptyString => Some []
  | String _ EmptyString => None
  | String hi (String lo s') =>
      match Byte.of_N (16 * hex_value hi + hex_value lo), from_hex s' with
      | Some b, Some l => Some (b :: l)
      | _, _ => None
      end
  end.

End UserMore.

Module RegexMore.
Import Regex.

(** The character classes a pattern is built from. *)
Fixpoint classes (r : t) : list (ascii -> bool) :=
  match r with
  | Empty | Eps => []
  | Chr p => [p]
  | Cat a b | Alt a b => classes a ++ classes b
  | Star a => classes a
  end.

(** The characters of the names and the suffixes of an email address. *)
Definition name_char (c : ascii) : Prop :=
  is_word c = true \/ c = "."%char \/ c = "-"%char.

End RegexMore.

(** ** SEO model (src/unnamed/part_000) *)

Module Seo.

Record t := mkSeo {
  pageTitle : string;
  pageSlug : string;
  canonicalUrl : option string;
  updatedAt : Date
}.

(** [seoSchema.pre('save')]. *)
Definition pre_save (now : Date) (this : t) : t :=
  mkSeo (pageTitle this) (pageSlug this) (canonicalUrl this) now.

(** [seoSchema.virtual('fullCanonicalUrl')]. *)
Definition fullCanonicalUrl (this : t) : string :=
  match canonicalUrl this with
  | Some u => if truthy_string u then u else "/" +:+ pageSlug this
  | None => "/" +:+ pageSlug this
  end.

End Seo.

(** ** Connection helper (src/config/database.js) *)

Module Database.

(** A connection configuration: the URL, absent when the environment
    variable is unset, and the options given to [mongoose.connect]. *)
Record Config := mkConfig {
  url : option string;
  options : gmap string JsValue
}.

(** [process.env.X || fallback]. *)
Definition or_default (v : option string) (fallback : string) : string :=
  match v with
  | Some s => if truthy_string s then s else fallback
  | None => fallback
  end.

Definition development_options : gmap string JsValue :=
  <["useNewUrlParser" := VBool true]> (<["useUnifiedTopology" := VBool true]> ∅).

Definition production_options : gmap string JsValue :=
  <["useNewUrlParser" := VBool true]>
  (<["useUnifiedTopology" := VBool true]>
  (<["ssl" := VBool true]>
  (<["retryWrites" := VBool true]>
  (<["w" := VStr "majority"]> ∅)))).

(** What [mongoDBConfig[environment]] evaluates to: a configuration of
    the object, a member inherited from [Object.prototype] (which has no
    [url]), or [undefined]. *)
Inductive member :=
  | Own (config : Config)
  | Inherited
  | Undefined.

Definition prototype_keys : list string :=
  ["constructor"; "toString"; "toLocaleString"; "valueOf"; "hasOwnProperty";
   "isPrototypeOf"; "propertyIsEnumerable"; "__proto__"; "__defineGetter__";
   "__defineSetter__"; "__lookupGetter__"; "__lookupSetter__"].

(** [mongoDBConfig], built from [process.env]. *)
Definition mongoDBConfig (env : gmap string string) (environment : string)
    : member :=
  if bool_decide (environment = "development") then
    Own (mkConfig
           (Some (or_default (env !! "MONGODB_URI")
                    "mongodb://localhost:27017/tamamlayici-saglik-cms"))
           development_options)
  else if bool_decide (environment = "production") then
    Own (mkConfig (env !! "MONGODB_URI") production_options)
  else if bool_decide (environment = "test") then
    Own (mkConfig
           (Some (or_default (env !! "MONGODB_TEST_URI")
                    "mongodb://localhost:27017/tamamlayici-saglik-cms-test"))
           development_options)
  else if bool_decide (environment ∈ prototype_keys) then Inherited
  else Undefined.

(** What the helper does to the outside, in order. *)
Inductive event :=
  | console_log (message : string)
  | console_error (message detail : string)
  | mongoose_connect (url : string) (options : gmap string JsValue)
  | connection_on (name : string)
  | mongoose_disconnect
  | process_exit (code : Z).

(** The calls of [mongoose.connect] among some events. *)
Definition is_connect (e : event) : bool :=
  match e with mongoose_connect _ _ => true | _ => false end.

Definition connect_calls (events : list event) : nat :=
  length (List.filter is_connect events).

(** How a call ends: the promise resolves, or the process exits. *)
Inductive outcome :=
  | resolved
  | exited (code : Z).

(** The [catch] block of [connectDB], after the events [before]. *)
Definition connect_failed (before : list event) (message : string)
    : list event * outcome :=
  (before ++ [console_error "Failed to connect to MongoDB:" message;
              process_exit 1],
   exited 1).

Definition not_configured (environment : string) : string :=
  "MongoDB URI not configured for " +:+ environment +:+ " environment".

(** [connectDB]. [connect] is [mongoose.connect]: it answers the message
    of the error it rejects with, or nothing when the connection is
    made. *)
Definition connectDB (env : gmap string string)
    (connect : string -> gmap string JsValue -> option string)
    (environment : option string) : list event * outcome :=
  let environment :=
    match environment with Some e => e | None => "development" end in
  match mongoDBConfig env environment with
  | Undefined =>
      connect_failed [] "Cannot read properties of undefined (reading 'url')"
  | Inherited => connect_failed [] (not_configured environment)
  | Own config =>
      match url config with
      | None => connect_failed [] (not_configured environment)
      | Some u =>
          if negb (truthy_string u)
          then connect_failed [] (not_configured environment)
          else
            match connect u (options config) with
            | Some message =>
                connect_failed [mongoose_connect u (options config)] message
            | None =>
                ([mongoose_connect u (options config);
                  console_log ("MongoDB connected successfully in "
                               +:+ environment +:+ " environment");
                  connection_on "disconnected";
                  connection_on "error"],
                 resolved)
            end
      end
  end.

(** [disconnectDB]; [disconnect] is [mongoose.disconnect]. *)
Definition disconnectDB (disconnect : option string) : list event * outcome :=
  match disconnect with
  | None =>
      ([mongoose_disconnect; console_log "MongoDB disconnected successfully"],
       resolved)
  | Some message =>
      ([mongoose_disconnect;
        console_error "Failed to disconnect from MongoDB:" message;
        process_exit 1],
       exited 1)
  end.

End Database.

(** ** Page documents as Mongoose handles them

    What Mongoose does around the hooks of the Page schema: it records the
    paths assigned since the document was loaded, forgets them once the
    write of a save is done and before the post-save hooks run, and, the
    schema having [timestamps: true], adds [updatedAt] to every update it
    sends. *)

Module PageMongoose.
Import Page.

(** A document with the paths recorded as modified. *)
Record t := mkTracked {
  document : Page.t;
  modifiedPaths : gset string
}.

(** [this.isModified(path)]. *)
Definition isModified (path : string) (this : t) : bool :=
  bool_decide (path ∈ modifiedPaths this).

(** [this.content = v]: the path is recorded when the value changes. *)
Definition assign_content (v : string) (this : t) : t :=
  mkTracked (set_content v (document this))
    (if bool_decide (v = content (document this)) then modifiedPaths this
     else {["content"]} ∪ modifiedPaths this).

(** The reset of the modified paths after the write. *)
Definition reset (this : t) : t := mkTracked (document this) ∅.

(** [this.save()]: the pre-save hook, the write, the reset, then the
    post-save hook, in which [this.isModified('content')] is asked of the
    document after the reset. The paths the post-save hook assigns are
    recorded. *)
Definition save (tm : SaveTimes) (this : t) : t :=
  let this := mkTracked (pre_save tm (document this)) (modifiedPaths this) in
  let this := reset this in
  let asked := isModified "content" this in
  mkTracked (post_save (at_version tm) asked (document this))
    (if enableVersioning (advancedFeatures (document this)) && asked
     then {["advancedFeatures.versionHistory"]}
          ∪ {["advancedFeatures.currentVersion"]}
     else ∅).

(** The update [findByIdAndUpdate] sends for [incrementPageView] at the
    time [now]: the [$inc] of the source and the [$set] of [updatedAt]
    that the timestamps add, applied to the page as one update. *)
Definition incrementPageView_sent (now : Date) : list Store.update :=
  [incrementPageView_update; Store.u_set "updatedAt" (VDate now)].

Definition incrementPageView (now : Date) (pageId : ObjectId)
    (coll : gmap ObjectId Store.Doc) : gmap ObjectId Store.Doc * option Store.Doc :=
  match coll !! pageId with
  | Some d =>
      let d' := Store.apply_updates (incrementPageView_sent now) d in
      (<[pageId := d']> coll, Some d')
  | None => (coll, None)
  end.

End PageMongoose.

(** ** The tags of a Media document, over the string methods of the
    platform

    [String.prototype.toLowerCase] and [String.prototype.trim] work on
    every Unicode letter and white space character. Here they are
    parameters of the hook, functions on strings in whatever encoding the
    [string] holds; [JsString] gives them on the ASCII range. *)

Module MediaTags.
Import Media.

Record StringMethods := mkStringMethods {
  toLowerCase : string -> string;
  trim : string -> string
}.

Definition ascii_methods : StringMethods :=
  mkStringMethods JsString.toLowerCase JsString.trim.

(** What the platform's methods are relied on for: lower-casing a
    lower-cased string changes nothing, and trimming a lower-cased string
    gives a lower-cased string. A string is lower-cased when [toLowerCase]
    leaves it as it is. *)
Definition lower_case_kept (P : StringMethods) : Prop :=
  (forall s, toLowerCase P (toLowerCase P s) = toLowerCase P s)
  /\ (forall s, toLowerCase P s = s -> toLowerCase P (trim P s) = trim P s).

(** The callback of [this.tags.map]. *)
Definition normalize_tag (P : StringMethods) (tag : string) : string :=
  trim P (toLowerCase P tag).

(** [MediaSchema.pre('save')]. *)
Definition pre_save (P : StringMethods) (this : t) : completion * t :=
  let this :=
    if (0 <? length (tags this))%nat
    then set_tags (JsSet.spread (JsSet.new_Set (map (normalize_tag P) (tags this)))) this
    else this in
  if MediaType_eqb (mediaType this) image then
    if truthy_opt_number (width (imageMetadata this)) && le_zero (width (imageMetadata this))
    then (Thrown (Error "Image width must be greater than 0"), this)
    else if truthy_opt_number (height (imageMetadata this)) && le_zero (height (imageMetadata this))
    then (Thrown (Error "Image height must be greater than 0"), this)
    else (Returned, this)
  else (Returned, this).

End MediaTags.

(** ** Concrete documents

    Documents on which the hooks and methods are run in the examples. *)

Module Samples.

Definition page : Page.t :=
  Page.mkPage "Akupunktur" "akupunktur" "<p>Seans bilgisi</p>" "" "u1"
    Page.draft None (Page.mkSeo "" "")
    (Page.mkAdvancedFeatures true (Some []) 1) 0 0 None.

Definition times : Page.SaveTimes := Page.mkSaveTimes 1000 1001 1002.

Definition later_times : Page.SaveTimes := Page.mkSaveTimes 2000 2001 2002.

(** A page with two stored versions. *)
Definition page_with_history : Page.t :=
  Page.mkPage "Fitoterapi" "fitoterapi" "<p>Guncel metin</p>" "" "u1"
    Page.published (Some 500) (Page.mkSeo "Fitoterapi" "")
    (Page.mkAdvancedFeatures true
       (Some [Page.mkVersionEntry 1 "Bitkisel" "<p>Ilk metin</p>" "u1" 100 None;
              Page.mkVersionEntry 2 "Fitoterapi" "<p>Ikinci metin</p>" "u2" 200 None])
       3) 0 400 None.

Definition media : Media.t :=
  Media.mkMedia "Klinik girisi" ["  Klinik"; "GIRIS"; "klinik"; "Giris "; "bina"]
    Media.image (Media.mkImageMetadata (Some 0) (Some 0))
    (Media.mkAnalytics 5 0 0).

Definition media_loaded : Media.t :=
  Media.mkMedia "Bekleme salonu" ["klinik"; "salon"]
    Media.image (Media.mkImageMetadata (Some 800) (Some 600))
    (Media.mkAnalytics 5 2 0).

Definition media_negative_width : Media.t :=
  Media.mkMedia "Klinik girisi" ["klinik"]
    Media.image (Media.mkImageMetadata (Some (-1)) (Some 600))
    (Media.mkAnalytics 0 0 0).

Definition user : User.t :=
  User.mkUser "64b0c0ffee" "ayse" "ayse@klinik.com" (Some "$2a$10$hash")
    "Ayse" "Yilmaz" User.admin true true (Some "verify-me") None None
    None None None 10 20 0.

Definition settings : Settings.t :=
  Settings.mkSettings
    (Settings.mkContact (Some "info@klinik.com.tr") (Some "+90 212 000 00 00"))
    (Settings.mkSeoDefaults (Some "Tamamlayici Saglik") (Some "Klinik"))
    (Settings.mkDesign (Some "light") (Some "medium"))
    8 80
    (Settings.mkHealthcare (Some "Klinik") None)
    (Some "smtp") (Some "daily").

Definition with_contact (c : Settings.Contact) (s : Settings.t) : Settings.t :=
  Settings.mkSettings c (Settings.seo s) (Settings.design s)
    (Settings.passwordMinLength s) (Settings.imageQuality s)
    (Settings.healthcare s) (Settings.smtpProvider s)
    (Settings.backupFrequency s).

Definition settings_email_only : Settings.t :=
  with_contact (Settings.mkContact (Some "info@klinik.com.tr") None) settings.

Definition settings_phone_only : Settings.t :=
  with_contact (Settings.mkContact None (Some "+90 212 000 00 00")) settings.

Definition settings_no_contact : Settings.t :=
  with_contact (Settings.mkContact None (Some "")) settings.

(** A stored page, and the collection that holds it. *)
Definition stored_page : Store.Doc :=
  <["title" := VStr "Akupunktur"]> (<["analytics.pageViews" := VNum 41]> ∅).

Definition pages : gmap ObjectId Store.Doc := <["p1" := stored_page]> ∅.

Definition media_doc : MediaMore.Doc :=
  MediaMore.mkDoc media true None None.

Definition media_doc_negative_width : MediaMore.Doc :=
  MediaMore.mkDoc media_negative_width true None None.

(** A page as loaded, with no path modified. *)
Definition tracked_page : PageMongoose.t := PageMongoose.mkTracked page ∅.

(** The same page after its content was replaced. *)
Definition edited_page : PageMongoose.t :=
  PageMongoose.assign_content "<p>Yeni metin</p>" tracked_page.

End Samples.

(** * Properties *)

(** ** Tactics *)

(** Case analysis on the sizes of an image and on the sign tests. *)
Ltac dimension_cases :=
  repeat match goal with
    | |- _ /\ _ => split
    | |- _ <-> _ => split
    | |- _ -> _ => intro
    | H : _ \/ _ |- _ => destruct H
    | H : ex _ |- _ => destruct H as (? & ? & ?)
    | H : Some _ = Some _ |- _ => injection H as H; subst
    | H : None = Some _ |- _ => discriminate H
    | H : forall x, Some ?a = Some x -> _ |- _ => specialize (H a eq_refl)
    | H : false = true |- _ => discriminate H
    end;
  try reflexivity; try lia; auto;
  first [ left; eexists; split; [reflexivity|lia]
        | right; eexists; split; [reflexivity|lia] ].


(** Case analysis on the membership of an event in a list of events. *)
Ltac db_cases :=
  repeat match goal with
    | H : _ \/ _ |- _ => destruct H
    | H : False |- _ => destruct H
    | H : Database.mongoose_connect _ _ = Database.mongoose_connect _ _ |- _ =>
        injection H as ? ?; subst
    | H : @eq Database.event _ _ |- _ => discriminate H
    end.

(** ** Page: versioning and the publish workflow *)

Module PageProps.
Import Page Samples.

(** What the pre-save hook leaves alone. *)
Lemma pre_save_advancedFeatures tm p :
  advancedFeatures (pre_save tm p) = advancedFeatures p.
Proof. unfold pre_save. repeat case_match; reflexivity. Qed.

Lemma pre_save_title tm p : title (pre_save tm p) = title p.
Proof. unfold pre_save. repeat case_match; reflexivity. Qed.

Lemma pre_save_content tm p : content (pre_save tm p) = content p.
Proof. unfold pre_save. repeat case_match; reflexivity. Qed.

Lemma pre_save_author tm p :
  or_else (lastModifiedBy (pre_save tm p)) (author (pre_save tm p))
  = or_else (lastModifiedBy p) (author p).
Proof. unfold pre_save. repeat case_match; reflexivity. Qed.

Lemma pre_save_status tm p : status (pre_save tm p) = status p.
Proof. unfold pre_save. repeat case_match; reflexivity. Qed.

(** The only assignment to [publishedAt] in the pre-save hook. *)
Lemma pre_save_publishedAt tm p :
  publishedAt (pre_save tm p) =
  match publishedAt p with
  | Some d => Some d
  | None => if Status_eqb (status p) published
            then Some (at_publishedAt tm) else None
  end.
Proof.
  unfold pre_save. cbn.
  destruct (publishedAt p) as [d|] eqn:Hp, (Status_eqb (status p) published);
    cbn; repeat case_match; cbn; congruence.
Qed.

(** What the post-save hook leaves alone. *)
Lemma post_save_publishedAt now cm p :
  publishedAt (post_save now cm p) = publishedAt p.
Proof. unfold post_save. case_match; reflexivity. Qed.

Lemma post_save_status now cm p : status (post_save now cm p) = status p.
Proof. unfold post_save. case_match; reflexivity. Qed.

Lemma post_save_title now cm p : title (post_save now cm p) = title p.
Proof. unfold post_save. case_match; reflexivity. Qed.

Lemma post_save_content now cm p : content (post_save now cm p) = content p.
Proof. unfold post_save. case_match; reflexivity. Qed.

Lemma save_publishedAt tm cm p :
  publishedAt (save tm cm p) =
  match publishedAt p with
  | Some d => Some d
  | None => if Status_eqb (status p) published
            then Some (at_publishedAt tm) else None
  end.
Proof. unfold save. rewrite post_save_publishedAt. apply pre_save_publishedAt. Qed.

Lemma save_status tm cm p : status (save tm cm p) = status p.
Proof. unfold save. rewrite post_save_status. apply pre_save_status. Qed.

Lemma save_title tm cm p : title (save tm cm p) = title p.
Proof. unfold save. rewrite post_save_title. apply pre_save_title. Qed.

Lemma save_content tm cm p : content (save tm cm p) = content p.
Proof. unfold save. rewrite post_save_content. apply pre_save_content. Qed.

(** The post-save hook when it runs its body, and when it does not. *)
Lemma post_save_modified now doc :
  enableVersioning (advancedFeatures doc) = true ->
  advancedFeatures (post_save now true doc) =
  mkAdvancedFeatures true
    (Some (history doc ++
       [mkVersionEntry (currentVersion (advancedFeatures doc)) (title doc)
          (content doc) (or_else (lastModifiedBy doc) (author doc)) now None]))
    (currentVersion (advancedFeatures doc) + 1).
Proof. intros Hv. unfold post_save, history. rewrite Hv. reflexivity. Qed.

Lemma post_save_unmodified now doc : post_save now false doc = doc.
Proof. unfold post_save. rewrite andb_false_r. reflexivity. Qed.

Lemma history_pre_save tm p : history (pre_save tm p) = history p.
Proof. unfold history. rewrite pre_save_advancedFeatures. reflexivity. Qed.

(** The answers of [isModified]: the content is recorded as modified by
    an assignment that changes it, and nothing is after the reset. *)
Lemma isModified_assign_content v t :
  v <> content (PageMongoose.document t) ->
  PageMongoose.isModified "content" (PageMongoose.assign_content v t) = true.
Proof.
  intros Hne. unfold PageMongoose.isModified, PageMongoose.assign_content.
  cbn [PageMongoose.modifiedPaths].
  rewrite (bool_decide_eq_false_2 _ Hne).
  apply bool_decide_eq_true_2, elem_of_union_l, elem_of_singleton. reflexivity.
Qed.

Lemma isModified_reset path t :
  PageMongoose.isModified path (PageMongoose.reset t) = false.
Proof.
  unfold PageMongoose.isModified, PageMongoose.reset.
  cbn [PageMongoose.modifiedPaths].
  apply bool_decide_eq_false_2, not_elem_of_empty.
Qed.

(** A save never runs the body of the post-save hook: whatever was
    modified, the document after the save is the one the pre-save hook
    left, with the version history and the current version of before. *)
Lemma tracked_save_appends_nothing tm t :
  PageMongoose.document (PageMongoose.save tm t)
    = pre_save tm (PageMongoose.document t)
  /\ PageMongoose.document (PageMongoose.save tm t)
    = save tm false (PageMongoose.document t)
  /\ versionHistory (advancedFeatures (PageMongoose.document (PageMongoose.save tm t)))
    = versionHistory (advancedFeatures (PageMongoose.document t))
  /\ currentVersion (advancedFeatures (PageMongoose.document (PageMongoose.save tm t)))
    = currentVersion (advancedFeatures (PageMongoose.document t)).
Proof.
  assert (Hdoc : PageMongoose.document (PageMongoose.save tm t)
                 = pre_save tm (PageMongoose.document t)).
  { unfold PageMongoose.save. cbn [PageMongoose.document].
    rewrite isModified_reset. cbn [PageMongoose.reset PageMongoose.document].
    apply post_save_unmodified. }
  split; [exact Hdoc|]. split.
  - rewrite Hdoc. unfold save. rewrite post_save_unmodified. reflexivity.
  - rewrite Hdoc, pre_save_advancedFeatures. split; reflexivity.
Qed.

(** C1, on the code. A page with versioning enabled whose content was
    replaced, so that [isModified('content')] holds before the save: the
    save appends no entry to the version history and leaves the current
    version at 1, where the claim has one entry with version number 1
    appended and the current version raised to 2. *)
Theorem save_of_modified_content_appends_nothing :
  enableVersioning (advancedFeatures (PageMongoose.document edited_page)) = true
  /\ content (PageMongoose.document edited_page)
     <> content (PageMongoose.document tracked_page)
  /\ PageMongoose.isModified "content" edited_page = true
  /\ history (PageMongoose.document edited_page) = []
  /\ currentVersion (advancedFeatures (PageMongoose.document edited_page)) = 1
  /\ content (PageMongoose.document (PageMongoose.save times edited_page))
     = "<p>Yeni metin</p>"
  /\ history (PageMongoose.document (PageMongoose.save times edited_page)) = []
  /\ currentVersion
       (advancedFeatures (PageMongoose.document (PageMongoose.save times edited_page)))
     = 1.
Proof.
  destruct (tracked_save_appends_nothing times edited_page)
    as (Hdoc & _ & Hhist & Hcur).
  split; [reflexivity|]. split; [discriminate|].
  split; [apply isModified_assign_content; discriminate|].
  split; [reflexivity|]. split; [reflexivity|].
  split; [rewrite Hdoc, pre_save_content; reflexivity|].
  split.
  - unfold history. rewrite Hhist. reflexivity.
  - rewrite Hcur. reflexivity.
Qed.

(** C4. A save of a page whose status is published and whose
    [publishedAt] is unset stamps [publishedAt] with the clock reading of
    that save; a save of a page whose [publishedAt] is set leaves it as it
    is, so the stamp of the first save survives every later save. *)
Theorem save_stamps_publishedAt_once tm cm p :
  (status p = published -> publishedAt p = None ->
     publishedAt (save tm cm p) = Some (at_publishedAt tm))
  /\ (forall d, publishedAt p = Some d -> publishedAt (save tm cm p) = Some d)
  /\ (forall tm' cm', status p = published -> publishedAt p = None ->
        publishedAt (save tm' cm' (save tm cm p)) = Some (at_publishedAt tm)).
Proof.
  split; [|split].
  - intros Hs Hp. rewrite save_publishedAt, Hp, Hs. reflexivity.
  - intros d Hp. rewrite save_publishedAt, Hp. reflexivity.
  - intros tm' cm' Hs Hp.
    rewrite save_publishedAt, save_publishedAt, Hp, Hs. reflexivity.
Qed.

Lemma save_stamps_publishedAt_once_witness :
  publishedAt (save times true (set_status published page)) = Some 1001
  /\ publishedAt (save times true (set_publishedAt (Some 7) page)) = Some 7
  /\ publishedAt (save later_times false
                    (save times true (set_status published page)))
     = Some 1001.
Proof.
  split; [|split].
  - apply (proj1 (save_stamps_publishedAt_once times true
                    (set_status published page))); reflexivity.
  - apply (proj1 (proj2 (save_stamps_publishedAt_once times true
                    (set_publishedAt (Some 7) page)))); reflexivity.
  - apply (proj2 (proj2 (save_stamps_publishedAt_once times true
                    (set_status published page)))); reflexivity.
Defined.

(** [find] on the history returns an entry of the history with the
    version number looked for, or nothing when no entry has it. *)
Lemma find_version_Some n (h : list VersionEntry) v :
  List.find (fun v => ver_versionNumber v =? n) h = Some v ->
  v ∈ h /\ ver_versionNumber v = n.
Proof.
  intros Hf. apply find_some in Hf as [Hin Heq].
  split; [apply list_elem_of_In; exact Hin | lia].
Qed.





(** C9. [publish] sets the status to published and stamps [publishedAt]
    with the clock reading of the call whatever the field held before: on
    a page whose [publishedAt] is already set the earlier stamp is
    replaced, while a plain save of the same page keeps it. *)
Theorem publish_overwrites_publishedAt now tm cm p d :
  status (publish now tm cm p) = published
  /\ publishedAt (publish now tm cm p) = Some now
  /\ publishedAt (publish now tm cm (set_publishedAt (Some d) p)) = Some now
  /\ publishedAt (save tm cm (set_publishedAt (Some d) p)) = Some d.
Proof.
  unfold publish.
  rewrite save_status, !save_publishedAt. cbn. repeat split.
Qed.

(** The stamp of a published page read before and after [publish]. *)
Example publish_replaces_stamp :
  publishedAt page_with_history = Some 500
  /\ publishedAt (publish 900 times false page_with_history) = Some 900
  /\ publishedAt (save times false page_with_history) = Some 500.
Proof. repeat split. Qed.

End PageProps.

(** ** Strings and sets *)

Module JsStringProps.
Import JsString.

Lemma lower_char_idem c : lower_char (lower_char c) = lower_char c.
Proof. destruct c as [[] [] [] [] [] [] [] []]; reflexivity. Qed.

Lemma toLowerCase_idem s : toLowerCase (toLowerCase s) = toLowerCase s.
Proof.
  induction s as [|c s IH]; cbn; [reflexivity|].
  rewrite lower_char_idem, IH. reflexivity.
Qed.

(** A suffix of a lower-cased string is lower-cased, and so is what
    [trimEnd] keeps of it. *)
Lemma trimStart_lower s : toLowerCase s = s -> toLowerCase (trimStart s) = trimStart s.
Proof.
  induction s as [|c s IH]; cbn; [reflexivity|].
  intros H. injection H as Hc Hs.
  destruct (is_white c); [auto|]. cbn. rewrite Hc, Hs. reflexivity.
Qed.

Lemma trimEnd_lower s : toLowerCase s = s -> toLowerCase (trimEnd s) = trimEnd s.
Proof.
  induction s as [|c s IH]; cbn; [reflexivity|].
  intros H. injection H as Hc Hs. specialize (IH Hs).
  destruct (trimEnd s) as [|c' r].
  - destruct (is_white c); cbn; [reflexivity|]. rewrite Hc. reflexivity.
  - cbn in *. rewrite Hc. f_equal. exact IH.
Qed.

Lemma trim_lower s : toLowerCase s = s -> toLowerCase (trim s) = trim s.
Proof. intros H. unfold trim. apply trimEnd_lower, trimStart_lower, H. Qed.

(** A string that does not start with white space. *)
Lemma trimStart_fixed s :
  match s with EmptyString => True | String c _ => is_white c = false end ->
  trimStart s = s.
Proof. destruct s as [|c s]; cbn; [reflexivity|]. intros ->. reflexivity. Qed.

Lemma trimStart_starts s :
  match trimStart s with EmptyString => True | String c _ => is_white c = false end.
Proof.
  induction s as [|c s IH]; cbn; [exact I|].
  destruct (is_white c) eqn:Hc; [exact IH | exact Hc].
Qed.

Lemma trimEnd_starts s :
  match s with EmptyString => True | String c _ => is_white c = false end ->
  match trimEnd s with EmptyString => True | String c _ => is_white c = false end.
Proof.
  destruct s as [|c s]; cbn; [auto|]. intros Hc.
  destruct (trimEnd s); [rewrite Hc; exact Hc | exact Hc].
Qed.

Lemma trimEnd_String c s :
  trimEnd (String c s) =
  match trimEnd s with
  | EmptyString => if is_white c then EmptyString else String c EmptyString
  | r => String c r
  end.
Proof. reflexivity. Qed.

Lemma trimEnd_idem s : trimEnd (trimEnd s) = trimEnd s.
Proof.
  induction s as [|c s IH]; cbn; [reflexivity|].
  destruct (trimEnd s) as [|c' r] eqn:Hr.
  - destruct (is_white c) eqn:Hc; cbn; [reflexivity|]. rewrite Hc. reflexivity.
  - rewrite trimEnd_String, IH. reflexivity.
Qed.

Lemma trim_idem s : trim (trim s) = trim s.
Proof.
  unfold trim.
  rewrite (trimStart_fixed (trimEnd (trimStart s))).
  - apply trimEnd_idem.
  - apply trimEnd_starts, trimStart_starts.
Qed.

End JsStringProps.

Module JsSetProps.
Import JsSet.

Lemma elem_of_add x y s : y ∈ add x s <-> y ∈ s \/ y = x.
Proof.
  unfold add. case_bool_decide as Hx.
  - split; [auto|]. intros [H| ->]; assumption.
  - rewrite elem_of_app, list_elem_of_singleton. reflexivity.
Qed.

Lemma NoDup_add x s : NoDup s -> NoDup (add x s).
Proof.
  intros Hs. unfold add. case_bool_decide as Hx; [exact Hs|].
  apply NoDup_app. split; [exact Hs|]. split.
  - intros y Hy Hy'. apply list_elem_of_singleton in Hy'. subst. contradiction.
  - apply NoDup_singleton.
Qed.

Lemma elem_of_fold_add l : forall acc y,
  y ∈ fold_left (fun s x => add x s) l acc <-> y ∈ acc \/ y ∈ l.
Proof.
  induction l as [|x l IH]; intros acc y; cbn.
  - split; [auto|]. intros [H|H]; [exact H|inversion H].
  - rewrite IH, elem_of_add, elem_of_cons. tauto.
Qed.

Lemma NoDup_fold_add l : forall acc,
  NoDup acc -> NoDup (fold_left (fun s x => add x s) l acc).
Proof.
  induction l as [|x l IH]; intros acc Hacc; cbn; [exact Hacc|].
  apply IH, NoDup_add, Hacc.
Qed.

(** A set built from a list holds the elements of the list, each once. *)
Lemma elem_of_new_Set l y : y ∈ new_Set l <-> y ∈ l.
Proof.
  unfold new_Set. rewrite elem_of_fold_add.
  split; [intros [H|H]; [inversion H|exact H] | auto].
Qed.

Lemma NoDup_new_Set l : NoDup (new_Set l).
Proof. apply NoDup_fold_add, NoDup_nil_2. Qed.

(** Positions of first occurrences in a list cut in two. *)
Lemma first_index_app_in x pre rest :
  x ∈ pre -> (first_index x (pre ++ rest) < length pre)%nat.
Proof.
  induction pre as [|y pre IH]; intros Hin; [inversion Hin|].
  cbn. case_bool_decide as Hy; [lia|].
  apply elem_of_cons in Hin as [->|Hin]; [congruence|].
  specialize (IH Hin). lia.
Qed.

Lemma first_index_app_fresh x pre rest :
  x ∉ pre -> first_index x (pre ++ x :: rest) = length pre.
Proof.
  induction pre as [|y pre IH]; intros Hnin; cbn.
  - rewrite bool_decide_eq_true_2; reflexivity.
  - apply not_elem_of_cons in Hnin as [Hne Hnin].
    rewrite bool_decide_eq_false_2 by congruence.
    rewrite IH by exact Hnin. reflexivity.
Qed.

Lemma StronglySorted_snoc {A} (R : A -> A -> Prop) (l : list A) x :
  StronglySorted R l -> Forall (fun y => R y x) l -> StronglySorted R (l ++ [x]).
Proof.
  induction 1 as [|y l Hl IH Hy]; intros Hx; cbn.
  - constructor; constructor.
  - apply Forall_cons_1 in Hx as [Hyx Hx].
    constructor; [apply IH, Hx|].
    apply Forall_app. split; [exact Hy|]. constructor; [exact Hyx|constructor].
Qed.

(** Adding the elements of [rest] to a set that holds the elements of
    [pre] in the order of their first occurrence keeps that order. *)
Lemma fold_add_sorted rest : forall pre acc,
  (forall y, y ∈ acc <-> y ∈ pre) ->
  StronglySorted
    (fun x y => (first_index x (pre ++ rest) < first_index y (pre ++ rest))%nat) acc ->
  StronglySorted
    (fun x y => (first_index x (pre ++ rest) < first_index y (pre ++ rest))%nat)
    (fold_left (fun s x => add x s) rest acc).
Proof.
  induction rest as [|x rest IH]; intros pre acc Hmem Hsorted; cbn; [exact Hsorted|].
  replace (pre ++ x :: rest) with ((pre ++ [x]) ++ rest) in *
    by (rewrite <- app_assoc; reflexivity).
  apply IH.
  - intros y. rewrite elem_of_add, elem_of_app, list_elem_of_singleton, Hmem.
    reflexivity.
  - unfold add. case_bool_decide as Hx; [exact Hsorted|].
    apply StronglySorted_snoc; [exact Hsorted|].
    apply Forall_forall. intros y Hy.
    rewrite <- !app_assoc. cbn.
    assert (Hxpre : x ∉ pre) by (rewrite <- Hmem; exact Hx).
    rewrite (first_index_app_fresh x pre rest Hxpre).
    apply first_index_app_in. apply Hmem. exact Hy.
Qed.

(** A set lists its elements in the order of their first occurrence in
    the list it was built from. *)
Lemma new_Set_sorted l :
  StronglySorted (fun x y => (first_index x l < first_index y l)%nat) (new_Set l).
Proof.
  unfold new_Set.
  apply (fold_add_sorted l [] []); [reflexivity | constructor].
Qed.

(** The same list, computed by recursion on the input. *)
Lemma filter_filter_pointwise {A} (f g h : A -> bool) (l : list A) :
  (forall y, f y = g y && h y) ->
  List.filter f l = List.filter g (List.filter h l).
Proof.
  intros Hfgh. induction l as [|y l IH]; cbn; [reflexivity|].
  rewrite Hfgh. destruct (h y); cbn.
  - rewrite andb_true_r. destruct (g y); rewrite IH; reflexivity.
  - rewrite andb_false_r. exact IH.
Qed.

Lemma filter_all {A} (f : A -> bool) (l : list A) :
  (forall y, f y = true) -> List.filter f l = l.
Proof.
  intros Hf. induction l as [|y l IH]; cbn; [reflexivity|].
  rewrite Hf, IH. reflexivity.
Qed.

Lemma fold_add_first_occurrences l : forall acc,
  fold_left (fun s x => add x s) l acc
  = acc ++ List.filter (fun y => negb (bool_decide (y ∈ acc))) (first_occurrences l).
Proof.
  induction l as [|x l IH]; intros acc; cbn.
  - rewrite app_nil_r. reflexivity.
  - rewrite IH. unfold add. case_bool_decide as Hx; cbn.
    + f_equal. apply filter_filter_pointwise. intros y.
      do 2 case_bool_decide; subst; cbn; try reflexivity. contradiction.
    + rewrite <- app_assoc. cbn. do 2 f_equal.
      apply filter_filter_pointwise. intros y.
      pose proof (elem_of_app acc [x] y) as Happ.
      rewrite list_elem_of_singleton in Happ.
      repeat case_bool_decide; cbn; try reflexivity; exfalso; tauto.
Qed.

Lemma new_Set_first_occurrences l : new_Set l = first_occurrences l.
Proof.
  unfold new_Set. rewrite fold_add_first_occurrences. cbn.
  apply filter_all. intros y. rewrite bool_decide_eq_false_2; [reflexivity|].
  apply not_elem_of_nil.
Qed.

End JsSetProps.

(** ** Media: the pre-save hook *)

Module MediaProps.
Import Media Samples.

(** The tags the pre-save hook leaves in the document. *)
Lemma pre_save_tags m :
  tags (snd (pre_save m)) = JsSet.new_Set (map normalize_tag (tags m)).
Proof.
  unfold pre_save.
  destruct (tags m) as [|x l] eqn:Ht; cbn -[JsSet.new_Set normalize_tag];
    repeat case_match; cbn -[JsSet.new_Set normalize_tag];
    rewrite ?Ht; reflexivity.
Qed.

Lemma normalize_tag_lower tag :
  JsString.toLowerCase (normalize_tag tag) = normalize_tag tag.
Proof.
  unfold normalize_tag.
  apply JsStringProps.trim_lower, JsStringProps.toLowerCase_idem.
Qed.

(** The hook of [Media] is the hook over the string methods of the
    platform, taken at the methods of the ASCII range. *)
Lemma pre_save_ascii m :
  pre_save m = MediaTags.pre_save MediaTags.ascii_methods m.
Proof. reflexivity. Qed.

Lemma ascii_lower_case_kept : MediaTags.lower_case_kept MediaTags.ascii_methods.
Proof.
  split.
  - exact JsStringProps.toLowerCase_idem.
  - exact JsStringProps.trim_lower.
Qed.

(** The tags the hook leaves, whatever the string methods are. *)
Lemma pre_save_tags_over P m :
  tags (snd (MediaTags.pre_save P m))
  = JsSet.new_Set (map (MediaTags.normalize_tag P) (tags m)).
Proof.
  unfold MediaTags.pre_save.
  destruct (tags m) as [|x l] eqn:Ht; cbn -[JsSet.new_Set MediaTags.normalize_tag];
    repeat case_match; cbn -[JsSet.new_Set MediaTags.normalize_tag];
    rewrite ?Ht; reflexivity.
Qed.

(** C6. Let [toLowerCase] and [trim] be the string methods of the
    platform, [toLowerCase] changing nothing in a lower-cased string and
    [trim] keeping a lower-cased string lower-cased. After the pre-save hook of a save, whether the save goes on or is
    rejected, every tag of the document is lower-cased, no tag occurs
    twice, the tags are exactly the strings [trim (toLowerCase raw)] of
    the pre-save tags [raw], and they stand in the order in which these
    strings first occur among the pre-save tags. *)
Theorem pre_save_normalizes_tags (P : MediaTags.StringMethods) m :
  MediaTags.lower_case_kept P ->
  let before :=
    map (fun raw => MediaTags.trim P (MediaTags.toLowerCase P raw)) (tags m) in
  let after := tags (snd (MediaTags.pre_save P m)) in
  Forall (fun tag => MediaTags.toLowerCase P tag = tag) after
  /\ NoDup after
  /\ (forall tag,
        tag ∈ after <->
        exists raw, raw ∈ tags m
                    /\ tag = MediaTags.trim P (MediaTags.toLowerCase P raw))
  /\ StronglySorted
       (fun x y => (JsSet.first_index x before < JsSet.first_index y before)%nat)
       after
  /\ after = JsSet.first_occurrences before.
Proof.
  intros [Hidem Htrim]. cbv zeta. rewrite pre_save_tags_over.
  change (map (MediaTags.normalize_tag P) (tags m))
    with (map (fun raw => MediaTags.trim P (MediaTags.toLowerCase P raw)) (tags m)).
  split; [|split; [|split; [|split]]].
  - apply Forall_forall. intros tag Hin.
    apply (proj1 (JsSetProps.elem_of_new_Set _ _)) in Hin.
    apply list_elem_of_In, in_map_iff in Hin as (raw & <- & _).
    apply Htrim, Hidem.
  - apply JsSetProps.NoDup_new_Set.
  - intros tag. rewrite JsSetProps.elem_of_new_Set. split.
    + intros Hin. apply list_elem_of_In, in_map_iff in Hin as (raw & <- & Hraw).
      exists raw. split; [apply list_elem_of_In; exact Hraw | reflexivity].
    + intros (raw & Hraw & ->). apply list_elem_of_In, in_map_iff.
      exists raw. split; [reflexivity | apply list_elem_of_In; exact Hraw].
  - apply JsSetProps.new_Set_sorted.
  - apply JsSetProps.new_Set_first_occurrences.
Qed.

Lemma pre_save_normalizes_tags_witness :
  MediaTags.lower_case_kept MediaTags.ascii_methods
  /\ Forall (fun tag => JsString.toLowerCase tag = tag) (tags (snd (pre_save media)))
  /\ NoDup (tags (snd (pre_save media))).
Proof.
  split; [exact ascii_lower_case_kept|].
  destruct (pre_save_normalizes_tags MediaTags.ascii_methods media
              ascii_lower_case_kept) as (Hlower & Hnodup & _).
  split; [exact Hlower | exact Hnodup].
Defined.

(** The hook on a document with mixed-case, padded and repeated tags. *)
Example pre_save_tags_media :
  tags (snd (pre_save media)) = ["klinik"; "giris"; "bina"].
Proof. reflexivity. Qed.

(** The completion of the hook on an image, by the sign of the sizes. *)
Lemma pre_save_image_completion m :
  mediaType m = image ->
  fst (pre_save m) =
  match width (imageMetadata m), height (imageMetadata m) with
  | Some w, oh =>
      if w <? 0 then Thrown (Error "Image width must be greater than 0")
      else match oh with
           | Some h => if h <? 0
                       then Thrown (Error "Image height must be greater than 0")
                       else Returned
           | None => Returned
           end
  | None, Some h =>
      if h <? 0 then Thrown (Error "Image height must be greater than 0")
      else Returned
  | None, None => Returned
  end.
Proof.
  intros Hm. unfold pre_save.
  assert (Himg : forall v, mediaType (set_tags v m) = image) by (intros; exact Hm).
  assert (Hmeta : forall v, imageMetadata (set_tags v m) = imageMetadata m)
    by reflexivity.
  destruct (0 <? length (tags m))%nat;
    rewrite ?Himg, ?Hmeta, ?Hm; cbn [MediaType_eqb];
    destruct (width (imageMetadata m)) as [w|], (height (imageMetadata m)) as [h|];
    cbn [truthy_opt_number le_zero andb negb];
    repeat match goal with
      | |- context [?a =? 0] => destruct (Z.eqb_spec a 0)
      | |- context [?a <=? 0] => destruct (Z.leb_spec a 0)
      | |- context [?a <? 0] => destruct (Z.ltb_spec a 0)
      end; cbn; try reflexivity; lia.
Qed.

(** C10. On an image the dimension check of the pre-save hook rejects the
    save exactly when the width or the height is a strictly negative
    number; a width or a height of 0 passes, although the messages of the
    errors say that the sizes must be greater than 0. *)
Theorem dimension_check_rejects_only_negative m :
  mediaType m = image ->
  (is_thrown (fst (pre_save m)) = true <->
     (exists w, width (imageMetadata m) = Some w /\ w < 0)
     \/ (exists h, height (imageMetadata m) = Some h /\ h < 0))
  /\ (fst (pre_save m) = Returned
      \/ fst (pre_save m) = Thrown (Error "Image width must be greater than 0")
      \/ fst (pre_save m) = Thrown (Error "Image height must be greater than 0"))
  /\ (width (imageMetadata m) = Some 0 ->
      (forall h, height (imageMetadata m) = Some h -> 0 <= h) ->
      fst (pre_save m) = Returned)
  /\ (height (imageMetadata m) = Some 0 ->
      (forall w, width (imageMetadata m) = Some w -> 0 <= w) ->
      fst (pre_save m) = Returned).
Proof.
  intros Hm. rewrite (pre_save_image_completion m Hm).
  destruct (width (imageMetadata m)) as [w|], (height (imageMetadata m)) as [h|];
    repeat match goal with
      | |- context [?a <? 0] => destruct (Z.ltb_spec a 0)
      end; cbn; dimension_cases.
Qed.

Lemma dimension_check_rejects_only_negative_witness :
  mediaType media = image
  /\ fst (pre_save media) = Returned
  /\ is_thrown (fst (pre_save media_negative_width)) = true.
Proof.
  split; [reflexivity|]. split.
  - apply (dimension_check_rejects_only_negative media eq_refl);
      [reflexivity | intros h [= <-]; lia].
  - apply (proj1 (dimension_check_rejects_only_negative media_negative_width eq_refl)).
    left. exists (-1). split; [reflexivity | lia].
Defined.

End MediaProps.

(** ** User: public profile and password reset token *)

Module UserProps.
Import User Samples.

(** Lookups under the layers of [toObject]. *)
Lemma lookup_insert_congr (j k : string) (v : JsValue) (m1 m2 : gmap string JsValue) :
  m1 !! k = m2 !! k -> <[j := v]> m1 !! k = <[j := v]> m2 !! k.
Proof.
  intros H. destruct (decide (j = k)) as [->|Hne].
  - rewrite !lookup_insert_eq. reflexivity.
  - rewrite !lookup_insert_ne by exact Hne. exact H.
Qed.

Lemma lookup_put_defined_congr (j k : string) (o : option JsValue)
    (m1 m2 : gmap string JsValue) :
  m1 !! k = m2 !! k -> put_defined j o m1 !! k = put_defined j o m2 !! k.
Proof. destruct o; cbn; [apply lookup_insert_congr | auto]. Qed.

Lemma lookup_put_defined_ne (j k : string) (o1 o2 : option JsValue)
    (m1 m2 : gmap string JsValue) :
  k <> j -> m1 !! k = m2 !! k ->
  put_defined j o1 m1 !! k = put_defined j o2 m2 !! k.
Proof.
  intros Hne H.
  destruct o1, o2; cbn; rewrite ?lookup_insert_ne by congruence; exact H.
Qed.

(** C7. The object [getPublicProfile] returns has none of the keys
    [password], [verificationToken], [passwordResetToken] and
    [passwordResetExpires], and under every other key it holds what the
    plain object of the user holds. *)
Theorem getPublicProfile_strips_secrets u :
  (forall k, k ∈ secret_keys -> getPublicProfile u !! k = None)
  /\ (forall k, k ∉ secret_keys -> getPublicProfile u !! k = toObject u !! k).
Proof.
  unfold getPublicProfile, secret_keys. generalize (toObject u) as o. intros o.
  split; intros k Hk.
  - repeat (apply elem_of_cons in Hk as [->|Hk]);
      [ .. | inversion Hk ];
      rewrite ?lookup_delete_eq; try reflexivity;
      repeat (rewrite lookup_delete_ne by discriminate);
      rewrite ?lookup_delete_eq; try reflexivity;
      repeat (rewrite lookup_delete_ne by discriminate);
      apply lookup_delete_eq.
  - rewrite !not_elem_of_cons in Hk. destruct Hk as (H1 & H2 & H3 & H4 & _).
    rewrite !lookup_delete_ne by congruence. reflexivity.
Qed.

Lemma getPublicProfile_strips_secrets_witness :
  getPublicProfile user !! "password" = None
  /\ getPublicProfile user !! "verificationToken" = None
  /\ getPublicProfile user !! "email" = toObject user !! "email".
Proof.
  destruct (getPublicProfile_strips_secrets user) as [Hsecret Hother].
  split; [|split].
  - apply Hsecret. unfold secret_keys. apply elem_of_cons. left. reflexivity.
  - apply Hsecret. unfold secret_keys.
    apply elem_of_cons. right. apply elem_of_cons. left. reflexivity.
  - apply Hother. unfold secret_keys.
    rewrite !not_elem_of_cons. repeat split; try discriminate.
    apply not_elem_of_nil.
Defined.

(** The public profile of a user who has a password hash and a
    verification token. *)
Example getPublicProfile_user :
  toObject user !! "password" = Some (VStr "$2a$10$hash")
  /\ getPublicProfile user !! "password" = None
  /\ getPublicProfile user !! "username" = Some (VStr "ayse").
Proof. repeat split. Qed.

Lemma toString_hex_length l :
  String.length (toString_hex l) = (2 * length l)%nat.
Proof. induction l as [|b l IH]; cbn; [reflexivity|]. rewrite IH. lia. Qed.

(** C8. [generatePasswordResetToken] returns the hexadecimal form of the
    random bytes; the document's [passwordResetToken] is the SHA-256
    digest of that returned token, [passwordResetExpires] is 30 minutes
    after the clock reading of the call, and every other path of the
    document is as before, so the returned token itself is written
    nowhere. *)
Theorem generatePasswordResetToken_stores_hash
    (sha256_hex : string -> string) randomBytes32 now u :
  let token := fst (generatePasswordResetToken sha256_hex randomBytes32 now u) in
  let u' := snd (generatePasswordResetToken sha256_hex randomBytes32 now u) in
  token = toString_hex randomBytes32
  /\ String.length token = (2 * length randomBytes32)%nat
  /\ passwordResetToken u' = Some (sha256_hex token)
  /\ passwordResetExpires u' = Some (now + minutes 30)
  /\ passwordResetExpires u' = Some (now + 1800000)
  /\ delete "passwordResetToken" (delete "passwordResetExpires" (toObject u'))
     = delete "passwordResetToken" (delete "passwordResetExpires" (toObject u)).
Proof.
  cbv zeta. unfold generatePasswordResetToken. cbn [fst snd].
  split; [reflexivity|]. split; [apply toString_hex_length|].
  split; [reflexivity|]. split; [reflexivity|].
  split; [cbn; f_equal; lia|].
  apply map_eq. intros k.
  destruct (decide (k = "passwordResetToken")) as [->|Htok];
    [rewrite !lookup_delete_eq; reflexivity|].
  rewrite !(lookup_delete_ne _ "passwordResetToken") by congruence.
  destruct (decide (k = "passwordResetExpires")) as [->|Hexp];
    [rewrite !lookup_delete_eq; reflexivity|].
  rewrite !(lookup_delete_ne _ "passwordResetExpires") by congruence.
  unfold toObject. cbn -[put_defined].
    repeat first
      [ apply lookup_insert_congr
      | apply lookup_put_defined_ne; [assumption|]
      | apply lookup_put_defined_congr ].
  reflexivity.
Qed.

End UserProps.

(** ** Regular expressions: [test] decides the language *)

Module RegexProps.
Import Regex.

Lemma lang_Empty s : ~ lang Empty s.
Proof. intros H. inversion H. Qed.

Lemma lang_Eps_inv s : lang Eps s <-> s = EmptyString.
Proof. split; [intros H; inversion H; reflexivity | intros ->; constructor]. Qed.

Lemma lang_Chr_inv p s :
  lang (Chr p) s <-> exists c, s = String c EmptyString /\ p c = true.
Proof.
  split.
  - intros H. inversion H; subst. eauto.
  - intros (c & -> & Hc). constructor. exact Hc.
Qed.

Lemma lang_Cat_inv a b s :
  lang (Cat a b) s <->
  exists s1 s2, s = (s1 ++ s2)%string /\ lang a s1 /\ lang b s2.
Proof.
  split.
  - intros H. inversion H; subst. eauto.
  - intros (s1 & s2 & -> & Ha & Hb). constructor; assumption.
Qed.

Lemma lang_Alt_inv a b s : lang (Alt a b) s <-> lang a s \/ lang b s.
Proof.
  split.
  - intros H. inversion H; subst; auto.
  - intros [H|H]; [apply lang_alt_l | apply lang_alt_r]; exact H.
Qed.

Lemma append_empty s1 s2 :
  (s1 ++ s2)%string = EmptyString -> s1 = EmptyString /\ s2 = EmptyString.
Proof. destruct s1; cbn; [auto | discriminate]. Qed.

Lemma nullable_lang r : nullable r = true <-> lang r EmptyString.
Proof.
  split.
  - induction r as [| |p|a IHa b IHb|a IHa b IHb|a IHa]; cbn; intros H;
      try discriminate.
    + constructor.
    + apply andb_true_iff in H as [Ha Hb].
      apply (lang_cat a b EmptyString EmptyString); auto.
    + apply orb_true_iff in H as [H|H];
        [apply lang_alt_l | apply lang_alt_r]; auto.
    + constructor.
  - intros H. remember EmptyString as s eqn:Hs.
    induction H as [|p c Hc|a b s1 s2 Ha IHa Hb IHb|a b s Ha IHa|a b s Hb IHb
                    |a|a s1 s2 Ha IHa Hs2 IHs2]; cbn; try reflexivity.
    + discriminate.
    + apply append_empty in Hs as [-> ->]. rewrite IHa, IHb; reflexivity.
    + rewrite IHa by exact Hs. reflexivity.
    + rewrite IHb by exact Hs. apply orb_true_r.
Qed.

(** The constructors that drop the empty language keep the language. *)
Lemma lang_cat_iff a b s : lang (cat a b) s <-> lang (Cat a b) s.
Proof.
  assert (Hl : forall s, ~ lang (Cat Empty b) s).
  { intros s' H. apply lang_Cat_inv in H as (? & ? & _ & H & _).
    exact (lang_Empty _ H). }
  assert (Hr : forall a s, ~ lang (Cat a Empty) s).
  { intros a' s' H. apply lang_Cat_inv in H as (? & ? & _ & _ & H).
    exact (lang_Empty _ H). }
  assert (He : forall b s, lang b s <-> lang (Cat Eps b) s).
  { intros b' s'. rewrite lang_Cat_inv. split.
    - intros H. exists EmptyString, s'. repeat split; [constructor | exact H].
    - intros (s1 & s2 & -> & H1 & H2). apply lang_Eps_inv in H1 as ->. exact H2. }
  destruct a, b; cbn; try reflexivity; try apply He;
    split; intros H; exfalso;
    first [ exact (lang_Empty _ H) | exact (Hl _ H) | exact (Hr _ _ H) ].
Qed.

Lemma lang_alt_iff a b s : lang (alt a b) s <-> lang (Alt a b) s.
Proof.
  rewrite lang_Alt_inv.
  destruct a, b; cbn; rewrite ?lang_Alt_inv; try reflexivity;
    split; try (intros [H|H]; [|]); try intros H; auto;
    exfalso; exact (lang_Empty _ H).
Qed.

(** A non-empty string of [Star a] starts with a non-empty string of
    [a]. *)
Lemma lang_Star_cons_inv a c s :
  lang (Star a) (String c s) ->
  exists s1 s2, s = (s1 ++ s2)%string /\ lang a (String c s1) /\ lang (Star a) s2.
Proof.
  intros H. remember (Star a) as r eqn:Hr. remember (String c s) as w eqn:Hw.
  revert c s Hw.
  induction H as [|p c' Hc|a' b s1 s2 Ha IHa Hb IHb|a' b s' Ha IHa|a' b s' Hb IHb
                  |a'|a' s1 s2 Ha IHa Hs2 IHs2]; intros c s Hw; try discriminate.
  injection Hr as ->.
  destruct s1 as [|c1 s1]; cbn in Hw.
  - apply IHs2; [reflexivity | exact Hw].
  - injection Hw as -> <-. eauto.
Qed.

Lemma lang_deriv c r : forall s, lang (deriv c r) s <-> lang r (String c s).
Proof.
  induction r as [| |p|a IHa b IHb|a IHa b IHb|a IHa]; intros s; cbn.
  - split; intros H; inversion H.
  - split; intros H; inversion H.
  - rewrite lang_Chr_inv. destruct (p c) eqn:Hp.
    + rewrite lang_Eps_inv. split.
      * intros ->. eauto.
      * intros (c' & [= <- <-] & _). reflexivity.
    + split; [intros H; inversion H|].
      intros (c' & [= <- ->] & Hc). congruence.
  - assert (Hcat : lang (cat (deriv c a) b) s <->
                   exists s1 s2, s = (s1 ++ s2)%string
                                 /\ lang a (String c s1) /\ lang b s2).
    { rewrite lang_cat_iff, lang_Cat_inv.
      split; intros (s1 & s2 & Hs & H1 & H2); exists s1, s2;
        (split; [exact Hs|]); (split; [apply IHa; exact H1 | exact H2]). }
    rewrite lang_Cat_inv.
    destruct (nullable a) eqn:Hn.
    + rewrite lang_alt_iff, lang_Alt_inv, Hcat, IHb. split.
      * intros [(s1 & s2 & -> & H1 & H2)|H].
        -- exists (String c s1), s2. auto.
        -- exists EmptyString, (String c s). repeat split; [|exact H].
           apply nullable_lang. exact Hn.
      * intros (t1 & t2 & Ht & H1 & H2). destruct t1 as [|c1 t1]; cbn in Ht.
        -- right. rewrite Ht. exact H2.
        -- injection Ht as <- ->. left. eauto.
    + rewrite Hcat. split.
      * intros (s1 & s2 & -> & H1 & H2). exists (String c s1), s2. auto.
      * intros (t1 & t2 & Ht & H1 & H2). destruct t1 as [|c1 t1]; cbn in Ht.
        -- apply nullable_lang in H1. congruence.
        -- injection Ht as <- ->. eauto.
  - rewrite lang_alt_iff, !lang_Alt_inv, IHa, IHb. reflexivity.
  - rewrite lang_cat_iff, lang_Cat_inv. split.
    + intros (s1 & s2 & -> & H1 & H2).
      apply (lang_star_cons a (String c s1) s2); [apply IHa; exact H1 | exact H2].
    + intros H. apply lang_Star_cons_inv in H as (s1 & s2 & -> & H1 & H2).
      exists s1, s2. repeat split; [apply IHa; exact H1 | exact H2].
Qed.

(** [test] accepts exactly the strings of the language. *)
Lemma test_lang s : forall r, test r s = true <-> lang r s.
Proof.
  induction s as [|c s IH]; intros r; cbn.
  - apply nullable_lang.
  - rewrite IH. apply lang_deriv.
Qed.

End RegexProps.

(** ** Settings: the contact requirement *)

Module SettingsProps.
Import Settings Samples.

Lemma failing_app vs ws : failing (vs ++ ws) = failing vs ++ failing ws.
Proof. unfold failing. rewrite List.filter_app, map_app. reflexivity. Qed.

(** No validator outside the contact block guards a contact path. *)
Lemma failing_no_contact_path vs :
  List.Forall (fun v => is_contact_path (fst v) = false) vs ->
  existsb is_contact_path (failing vs) = false.
Proof.
  unfold failing. induction 1 as [|[path ok] vs Hv _ IH]; cbn; [reflexivity|].
  destruct ok; cbn; [exact IH|]. cbn in Hv. rewrite Hv. exact IH.
Qed.

Lemma other_validators_no_contact s :
  existsb is_contact_path (failing (other_validators s)) = false.
Proof.
  apply failing_no_contact_path. unfold other_validators.
  repeat constructor.
Qed.

(** The hook's contact check, apart from its other checks. *)
Lemma pre_save_contact_error s :
  pre_save s = Thrown contact_error <->
  truthy_opt_string (email (contact s)) = false
  /\ truthy_opt_string (phone (contact s)) = false.
Proof.
  unfold pre_save, contact_error.
  destruct (truthy_opt_string (email (contact s))),
           (truthy_opt_string (phone (contact s))); cbn;
    repeat case_match; split; try discriminate; try tauto;
    intros [? ?]; discriminate.
Qed.

(** A save reports a failure about the contact block exactly when one of
    the three validators of the block fails. *)
Lemma fails_on_contact_save s :
  fails_on_contact (save s) =
  negb (required (email (contact s))
        && matches email_pattern (email (contact s))
        && required (phone (contact s))).
Proof.
  unfold save, validate, validators. rewrite failing_app.
  pose proof (other_validators_no_contact s) as Hothers.
  unfold contact_validators, failing at 1. cbn [List.filter map snd fst].
  destruct (required (email (contact s))) eqn:He,
           (matches email_pattern (email (contact s))) eqn:Hm,
           (required (phone (contact s))) eqn:Hp;
    cbn [negb andb List.filter map snd fst app]; try reflexivity.
  destruct (failing (other_validators s)) as [|path paths] eqn:Hf.
  - unfold pre_save. unfold required in He, Hp. rewrite He, Hp. cbn.
    repeat case_match; reflexivity.
  - cbn [fails_on_contact]. exact Hothers.
Qed.

(** C2, as the code has it. Saving fails with an error when both
    [contact.email] and [contact.phone] are empty, and then the contact
    check of the pre-save hook fails as well. When at least one of the two
    is present the contact check of the hook passes. The schema declares
    both paths required, so the save reports no failure about the contact
    block exactly when the email and the phone are both present and the
    email matches the declared pattern. *)
Theorem save_contact_requirements s :
  (truthy_opt_string (email (contact s)) = false ->
   truthy_opt_string (phone (contact s)) = false ->
   is_thrown (save s) = true
   /\ fails_on_contact (save s) = true
   /\ pre_save s = Thrown contact_error)
  /\ (truthy_opt_string (email (contact s)) = true
      \/ truthy_opt_string (phone (contact s)) = true ->
      pre_save s <> Thrown contact_error)
  /\ (fails_on_contact (save s) = false <->
      truthy_opt_string (email (contact s)) = true
      /\ truthy_opt_string (phone (contact s)) = true
      /\ matches email_pattern (email (contact s)) = true).
Proof.
  split; [|split].
  - intros He Hp.
    assert (Hc : fails_on_contact (save s) = true).
    { rewrite fails_on_contact_save. unfold required. rewrite He. reflexivity. }
    split; [|split; [exact Hc|]].
    + destruct (save s); [discriminate Hc | reflexivity].
    + apply pre_save_contact_error. split; assumption.
  - intros Hone Herr. apply pre_save_contact_error in Herr as [He Hp].
    destruct Hone as [H|H]; congruence.
  - rewrite fails_on_contact_save, negb_false_iff, !andb_true_iff.
    unfold required. tauto.
Qed.

Lemma save_contact_requirements_witness :
  (is_thrown (save settings_no_contact) = true
   /\ fails_on_contact (save settings_no_contact) = true
   /\ pre_save settings_no_contact = Thrown contact_error)
  /\ pre_save settings_email_only <> Thrown contact_error
  /\ fails_on_contact (save settings) = false.
Proof.
  split; [|split].
  - apply (proj1 (save_contact_requirements settings_no_contact)); reflexivity.
  - apply (proj1 (proj2 (save_contact_requirements settings_email_only))).
    left. reflexivity.
  - apply (proj2 (proj2 (save_contact_requirements settings))).
    repeat split.
Defined.

(** A save with an email and no phone, and one with a phone and no email:
    the contact check of the hook would pass, and validation rejects the
    document on the missing path before the hook runs. *)
Lemma save_with_one_contact_fails :
  truthy_opt_string (email (contact settings_email_only)) = true
  /\ pre_save settings_email_only = Returned
  /\ save settings_email_only = Thrown (ValidationError ["contact.phone"])
  /\ truthy_opt_string (phone (contact settings_phone_only)) = true
  /\ pre_save settings_phone_only = Returned
  /\ save settings_phone_only = Thrown (ValidationError ["contact.email"])
  /\ ~ (forall s,
          truthy_opt_string (email (contact s)) = true
          \/ truthy_opt_string (phone (contact s)) = true ->
          fails_on_contact (save s) = false).
Proof.
  repeat (split; [reflexivity|]).
  intros Hall.
  specialize (Hall settings_email_only (or_introl eq_refl)).
  vm_compute in Hall. discriminate Hall.
Qed.

(** A save of the document with both contact paths set. *)
Example save_settings : save settings = Returned.
Proof. reflexivity. Qed.

End SettingsProps.

(** ** Counters: what is sent to the store *)

Module CounterProps.
Import Store Media Samples.

Lemma apply_updates_snoc us u d :
  apply_updates (us ++ [u]) d = apply_update u (apply_updates us d).
Proof. unfold apply_updates. rewrite fold_left_app. reflexivity. Qed.

Lemma apply_updates_cons u us d :
  apply_updates (u :: us) d = apply_updates us (apply_update u d).
Proof. reflexivity. Qed.

(** [$inc] on a stored number. *)
Lemma apply_update_inc path n k (d : Doc) :
  d !! path = Some (VNum k) ->
  apply_update (u_inc path n) d !! path = Some (VNum (k + n)).
Proof. intros Hd. cbn. rewrite Hd. apply lookup_insert_eq. Qed.

(** Any number of increments sent to the store add up. *)
Lemma apply_updates_repeat_inc path (n : nat) : forall k (d : Doc),
  d !! path = Some (VNum k) ->
  apply_updates (repeat (u_inc path 1) n) d !! path = Some (VNum (k + Z.of_nat n)).
Proof.
  induction n as [|n IH]; intros k d Hd.
  - cbn. rewrite Z.add_0_r. exact Hd.
  - change (repeat (u_inc path 1) (S n)) with (u_inc path 1 :: repeat (u_inc path 1) n).
    rewrite apply_updates_cons.
    rewrite (IH (k + 1) _ (apply_update_inc path 1 k d Hd)).
    f_equal. f_equal. lia.
Qed.

(** The pre-save hook of Media leaves the counters alone. *)
Lemma pre_save_analytics m : analytics (snd (pre_save m)) = analytics m.
Proof. unfold pre_save. repeat case_match; reflexivity. Qed.

(** The write of a save after one counter was incremented in memory: the
    tags when the hook changed them, and a [$set] of the counter. *)
Lemma modified_paths_counter c loaded this :
  counter_of c (analytics this) = counter_of c (analytics loaded) + 1 ->
  (forall c', c' <> c ->
     counter_of c' (analytics this) = counter_of c' (analytics loaded)) ->
  exists tags_update,
    (tags_update = [] \/ exists v, tags_update = [u_set "tags" v])
    /\ modified_paths loaded this =
       tags_update ++
       [u_set (counter_path c) (VNum (counter_of c (analytics loaded) + 1))].
Proof.
  intros Hc Hothers. unfold modified_paths.
  exists (if bool_decide (tags loaded = tags this) then []
          else [u_set "tags" (VArr (map VStr (tags this)))]).
  split; [case_bool_decide; eauto|].
  f_equal.
  destruct c; cbn in Hc;
    [ pose proof (Hothers c_downloads ltac:(discriminate)) as H1;
      pose proof (Hothers c_shares ltac:(discriminate)) as H2
    | pose proof (Hothers c_views ltac:(discriminate)) as H1;
      pose proof (Hothers c_shares ltac:(discriminate)) as H2
    | pose proof (Hothers c_views ltac:(discriminate)) as H1;
      pose proof (Hothers c_downloads ltac:(discriminate)) as H2 ];
    cbn in H1, H2;
    rewrite Hc, H1, H2;
    repeat match goal with
      | |- context [bool_decide (?x = ?x + 1)] =>
          rewrite (bool_decide_eq_false_2 (x = x + 1)) by lia
      | |- context [bool_decide (?x = ?x)] =>
          rewrite (bool_decide_eq_true_2 (x = x)) by reflexivity
      end; reflexivity.
Qed.

(** One of the three methods, when its save goes through. *)
Lemma increment_returned c m :
  fst (fst (increment c m)) = Returned ->
  counter_of c (analytics (snd (fst (increment c m))))
    = counter_of c (analytics m) + 1
  /\ exists tags_update,
       (tags_update = [] \/ exists v, tags_update = [u_set "tags" v])
       /\ snd (increment c m) =
          tags_update ++
          [u_set (counter_path c) (VNum (counter_of c (analytics m) + 1))].
Proof.
  destruct c; unfold increment, incrementViews, incrementDownloads,
    incrementShares, save;
    match goal with
    | |- context [pre_save ?x] =>
        pose proof (pre_save_analytics x) as Ha;
        destruct (pre_save x) as [cpl m'] eqn:Hpre
    end;
    cbn in Ha; destruct cpl; cbn [fst snd]; try discriminate; intros _;
    rewrite Ha; (split; [reflexivity|]).
  - apply (modified_paths_counter c_views); rewrite Ha; [reflexivity|].
    intros []; cbn; congruence.
  - apply (modified_paths_counter c_downloads); rewrite Ha; [reflexivity|].
    intros []; cbn; congruence.
  - apply (modified_paths_counter c_shares); rewrite Ha; [reflexivity|].
    intros []; cbn; congruence.
Qed.

(** C3, as the code has it. [Page.incrementPageView] sends an atomic
    [$inc] of [analytics.pageViews], so the increments of any number of
    invocations on a record add up. The Media methods [incrementViews],
    [incrementDownloads] and [incrementShares] add one to the counter of
    the document in memory and save it: no [$inc] is sent, the write is a
    [$set] of the counter to the loaded value plus one, and after the
    writes of two invocations on copies loaded from the same record the
    stored counter is the loaded value plus one. *)
Theorem counter_increments_at_store
    (coll : gmap ObjectId Doc) (pageId : ObjectId) (page_doc : Doc) (k : Z)
    (n : nat) (c : counter) (m : Media.t) (d : Doc) :
  is_inc_of "analytics.pageViews" Page.incrementPageView_update = true
  /\ (coll !! pageId = Some page_doc ->
      page_doc !! "analytics.pageViews" = Some (VNum k) ->
      exists d2,
        fst (Page.incrementPageView pageId
               (fst (Page.incrementPageView pageId coll))) !! pageId = Some d2
        /\ d2 !! "analytics.pageViews" = Some (VNum (k + 2)))
  /\ (page_doc !! "analytics.pageViews" = Some (VNum k) ->
      apply_updates (repeat Page.incrementPageView_update n) page_doc
        !! "analytics.pageViews" = Some (VNum (k + Z.of_nat n)))
  /\ (fst (fst (increment c m)) = Returned ->
      counter_of c (analytics (snd (fst (increment c m))))
        = counter_of c (analytics m) + 1
      /\ existsb (fun u => is_inc_of (counter_path c) u) (snd (increment c m)) = false
      /\ In (u_set (counter_path c) (VNum (counter_of c (analytics m) + 1)))
            (snd (increment c m))
      /\ apply_updates (snd (increment c m))
           (apply_updates (snd (increment c m)) d) !! counter_path c
         = Some (VNum (counter_of c (analytics m) + 1))).
Proof.
  split; [reflexivity|]. split; [|split].
  - intros Hcoll Hviews.
    unfold Page.incrementPageView, findByIdAndUpdate. rewrite Hcoll. cbn [fst].
    rewrite lookup_insert_eq. cbn [fst]. rewrite lookup_insert_eq.
    eexists. split; [reflexivity|].
    unfold Page.incrementPageView_update.
    rewrite (apply_update_inc _ 1 (k + 1)).
    + f_equal. f_equal. lia.
    + apply apply_update_inc. exact Hviews.
  - intros Hviews. apply apply_updates_repeat_inc. exact Hviews.
  - intros Hret.
    destruct (increment_returned c m Hret) as (Hmem & tu & Htu & Hus).
    split; [exact Hmem|]. rewrite Hus.
    split; [|split].
    + destruct Htu as [->|[v ->]]; reflexivity.
    + apply in_or_app. right. left. reflexivity.
    + rewrite apply_updates_snoc. cbn [apply_update]. apply lookup_insert_eq.
Qed.

Lemma counter_increments_at_store_witness :
  (exists d2,
     fst (Page.incrementPageView "p1"
            (fst (Page.incrementPageView "p1" pages))) !! "p1" = Some d2
     /\ d2 !! "analytics.pageViews" = Some (VNum 43))
  /\ apply_updates (repeat Page.incrementPageView_update 3) stored_page
       !! "analytics.pageViews" = Some (VNum 44)
  /\ apply_updates (snd (incrementViews media_loaded))
       (apply_updates (snd (incrementViews media_loaded)) (toStored media_loaded))
       !! "analytics.views" = Some (VNum 6).
Proof.
  destruct (counter_increments_at_store pages "p1" stored_page 41 3 c_views
              media_loaded (toStored media_loaded)) as (_ & Hpage & Hmany & Hmedia).
  split; [|split].
  - apply Hpage; reflexivity.
  - apply Hmany. reflexivity.
  - apply Hmedia. reflexivity.
Defined.

(** Two requests load the same media record, whose view counter is 5, and
    each calls [incrementViews]: neither sends an increment to the store,
    and after both writes the stored counter is 6. *)
Lemma incrementViews_loses_update :
  toStored media_loaded !! "analytics.views" = Some (VNum 5)
  /\ fst (fst (incrementViews media_loaded)) = Returned
  /\ existsb (fun u => is_inc_of "analytics.views" u) (snd (incrementViews media_loaded))
     = false
  /\ apply_updates (snd (incrementViews media_loaded))
       (apply_updates (snd (incrementViews media_loaded)) (toStored media_loaded))
       !! "analytics.views" = Some (VNum 6)
  /\ apply_updates (snd (incrementViews media_loaded))
       (apply_updates (snd (incrementViews media_loaded)) (toStored media_loaded))
       !! "analytics.views" <> Some (VNum 7).
Proof.
  assert (Hfinal : apply_updates (snd (incrementViews media_loaded))
            (apply_updates (snd (incrementViews media_loaded)) (toStored media_loaded))
            !! "analytics.views" = Some (VNum 6)) by reflexivity.
  repeat (split; [reflexivity|]).
  rewrite Hfinal. discriminate.
Qed.

End CounterProps.

(** ** Page: derived fields, history and the other methods *)

Module PageMoreProps.
Import Page PageMore Samples.

Lemma length_substring_0 n s : (String.length (substring 0 n s) <= n)%nat.
Proof.
  revert s. induction n as [|n IH]; intros [|c s]; cbn; try lia.
  specialize (IH s). lia.
Qed.

Lemma truthy_substring_0 n s :
  truthy_string s = true -> truthy_string (substring 0 (S n) s) = true.
Proof. destruct s; cbn; auto. Qed.

(** The document after the pre-save hook, field by field. *)
Lemma pre_save_fields tm p :
  pre_save tm p =
  mkPage (title p) (slug p) (content p) (excerpt p) (author p) (status p)
    (match publishedAt p with
     | Some d => Some d
     | None => if Status_eqb (status p) published
               then Some (at_publishedAt tm) else None
     end)
    (mkSeo
       (if truthy_string (metaTitle (seo p)) then metaTitle (seo p)
        else substring 0 60 (title p))
       (if truthy_string (metaDescription (seo p)) then metaDescription (seo p)
        else substring 0 160 (excerpt p)))
    (advancedFeatures p) (pageViews p) (at_updatedAt tm) (lastModifiedBy p).
Proof.
  destruct p as [ti sl co ex au st pa [mt md] af pv up lm].
  unfold pre_save. destruct st, pa, mt, ti, md, ex; reflexivity.
Qed.

(** X1. The pre-save hook fills an empty meta title with the first 60
    characters of the title and an empty meta description with the first
    160 characters of the excerpt, and leaves a meta title or description
    that is set as it is. *)
Theorem page_pre_save_fills_meta tm p :
  (metaTitle (seo p) = EmptyString ->
     metaTitle (seo (pre_save tm p)) = substring 0 60 (title p)
     /\ (String.length (metaTitle (seo (pre_save tm p))) <= 60)%nat)
  /\ (metaTitle (seo p) <> EmptyString ->
     metaTitle (seo (pre_save tm p)) = metaTitle (seo p))
  /\ (metaDescription (seo p) = EmptyString ->
     metaDescription (seo (pre_save tm p)) = substring 0 160 (excerpt p)
     /\ (String.length (metaDescription (seo (pre_save tm p))) <= 160)%nat)
  /\ (metaDescription (seo p) <> EmptyString ->
     metaDescription (seo (pre_save tm p)) = metaDescription (seo p)).
Proof.
  rewrite pre_save_fields. cbn [seo metaTitle metaDescription].
  split; [|split; [|split]].
  - intros ->. split; [reflexivity | apply length_substring_0].
  - destruct (metaTitle (seo p)); [congruence | reflexivity].
  - intros ->. split; [reflexivity | apply length_substring_0].
  - destruct (metaDescription (seo p)); [congruence | reflexivity].
Qed.

Lemma page_pre_save_fills_meta_witness :
  metaTitle (seo (pre_save times page)) = "Akupunktur"
  /\ metaTitle (seo (pre_save times page_with_history)) = "Fitoterapi".
Proof.
  split.
  - apply (proj1 (page_pre_save_fills_meta times page)). reflexivity.
  - apply (proj1 (proj2 (page_pre_save_fills_meta times page_with_history))).
    discriminate.
Defined.

(** X2. A second run of the pre-save hook changes nothing but [updatedAt]:
    the stamp and the derived meta fields of the first run stay. *)
Theorem page_pre_save_twice tm tm' p :
  pre_save tm' (pre_save tm p) = set_updatedAt (at_updatedAt tm') (pre_save tm p).
Proof.
  rewrite (pre_save_fields tm' (pre_save tm p)), (pre_save_fields tm p).
  unfold set_updatedAt. cbn -[substring]. f_equal.
  - destruct (publishedAt p); [reflexivity|].
    destruct (Status_eqb (status p) published) eqn:Hs; rewrite ?Hs; reflexivity.
  - f_equal.
    + destruct (truthy_string (metaTitle (seo p))) eqn:Hm; [rewrite ?Hm; reflexivity|].
      destruct (truthy_string (substring 0 60 (title p))); reflexivity.
    + destruct (truthy_string (metaDescription (seo p))) eqn:Hm;
        [rewrite ?Hm; reflexivity|].
      destruct (truthy_string (substring 0 160 (excerpt p))); reflexivity.
Qed.

(** The history after a save: the history before, and one entry more when
    the post-save hook runs its body. *)
Lemma save_history tm cm p :
  history (save tm cm p) =
  history p ++
  (if enableVersioning (advancedFeatures p) && cm
   then [mkVersionEntry (currentVersion (advancedFeatures p)) (title p) (content p)
           (or_else (lastModifiedBy p) (author p)) (at_version tm) None]
   else []).
Proof.
  unfold save. destruct cm.
  - destruct (enableVersioning (advancedFeatures p)) eqn:Hv; cbn [andb].
    + assert (Hv' : enableVersioning (advancedFeatures (pre_save tm p)) = true)
        by (rewrite PageProps.pre_save_advancedFeatures; exact Hv).
      unfold history at 1.
      rewrite (PageProps.post_save_modified (at_version tm) _ Hv').
      cbn [versionHistory].
      rewrite PageProps.history_pre_save, PageProps.pre_save_advancedFeatures,
        PageProps.pre_save_title, PageProps.pre_save_content,
        PageProps.pre_save_author.
      reflexivity.
    + unfold post_save. rewrite PageProps.pre_save_advancedFeatures, Hv.
      cbn [andb]. rewrite app_nil_r. apply PageProps.history_pre_save.
  - rewrite PageProps.post_save_unmodified, andb_false_r, app_nil_r.
    apply PageProps.history_pre_save.
Qed.

Lemma save_currentVersion tm cm p :
  currentVersion (advancedFeatures (save tm cm p)) =
  currentVersion (advancedFeatures p)
  + (if enableVersioning (advancedFeatures p) && cm then 1 else 0).
Proof.
  unfold save. destruct cm.
  - destruct (enableVersioning (advancedFeatures p)) eqn:Hv; cbn [andb].
    + assert (Hv' : enableVersioning (advancedFeatures (pre_save tm p)) = true)
        by (rewrite PageProps.pre_save_advancedFeatures; exact Hv).
      rewrite (PageProps.post_save_modified (at_version tm) _ Hv').
      cbn [currentVersion]. rewrite PageProps.pre_save_advancedFeatures.
      reflexivity.
    + unfold post_save. rewrite PageProps.pre_save_advancedFeatures, Hv.
      cbn [andb]. rewrite PageProps.pre_save_advancedFeatures. lia.
  - rewrite PageProps.post_save_unmodified, andb_false_r,
      PageProps.pre_save_advancedFeatures. lia.
Qed.

(** The document [revert] leaves in memory. *)
Lemma revert_document tm cm n p :
  snd (revert tm cm n p) = p
  \/ exists v, v ∈ history p /\ ver_versionNumber v = n
       /\ snd (revert tm cm n p)
          = save tm cm (set_title (ver_title v) (set_content (ver_content v) p)).
Proof.
  unfold revert, history.
  destruct (versionHistory (advancedFeatures p)) as [h|]; [|left; reflexivity].
  destruct (List.find _ h) as [v|] eqn:Hf; [|left; reflexivity].
  right. exists v. apply PageProps.find_version_Some in Hf as [Hin Hn].
  repeat split; assumption.
Qed.

(** X3. The version history only grows: after [save], [publish], [archive]
    and [revert] the entries that were there are still there, in the same
    order and at the head of the array, and the current version is not
    smaller than before. *)
Theorem page_history_append_only now tm cm n p :
  (history p `prefix_of` history (save tm cm p)
   /\ currentVersion (advancedFeatures p)
      <= currentVersion (advancedFeatures (save tm cm p)))
  /\ (history p `prefix_of` history (publish now tm cm p)
      /\ currentVersion (advancedFeatures p)
         <= currentVersion (advancedFeatures (publish now tm cm p)))
  /\ (history p `prefix_of` history (archive tm cm p)
      /\ currentVersion (advancedFeatures p)
         <= currentVersion (advancedFeatures (archive tm cm p)))
  /\ (history p `prefix_of` history (snd (revert tm cm n p))
      /\ currentVersion (advancedFeatures p)
         <= currentVersion (advancedFeatures (snd (revert tm cm n p)))).
Proof.
  assert (Hsave : forall q,
            history q `prefix_of` history (save tm cm q)
            /\ currentVersion (advancedFeatures q)
               <= currentVersion (advancedFeatures (save tm cm q))).
  { intros q. rewrite save_history, save_currentVersion. split.
    - eexists. reflexivity.
    - case_match; lia. }
  split; [apply Hsave|]. split; [apply (Hsave (set_publishedAt _ (set_status _ p)))|].
  split; [apply (Hsave (set_status _ p))|].
  destruct (revert_document tm cm n p) as [->|(v & _ & _ & ->)].
  - split; [reflexivity | lia].
  - apply (Hsave (set_title _ (set_content _ p))).
Qed.


Lemma save_history_ordered tm cm p :
  history_ordered p -> history_ordered (save tm cm p).
Proof.
  intros [Hs Hb]. unfold history_ordered.
  rewrite save_history, save_currentVersion.
  destruct (enableVersioning (advancedFeatures p) && cm).
  - split.
    + rewrite map_app. cbn. apply JsSetProps.StronglySorted_snoc; [exact Hs|].
      rewrite Forall_forall in Hb. apply Forall_forall. intros k Hk.
      apply list_elem_of_In, in_map_iff in Hk as (v & <- & Hv).
      apply Hb, list_elem_of_In, Hv.
    + apply Forall_app. split.
      * eapply Forall_impl; [exact Hb|]. cbn. intros; lia.
      * constructor; [cbn; lia | constructor].
  - rewrite app_nil_r, Z.add_0_r. split; assumption.
Qed.

(** X4. When the version numbers of the history grow along the array and stay
    below the current version, they still do after [save], [publish],
    [archive] and [revert]; so no two entries ever share a number. *)
Theorem page_history_stays_ordered now tm cm n p :
  history_ordered p ->
  history_ordered (save tm cm p)
  /\ history_ordered (publish now tm cm p)
  /\ history_ordered (archive tm cm p)
  /\ history_ordered (snd (revert tm cm n p)).
Proof.
  intros Hp.
  split; [apply save_history_ordered, Hp|].
  split; [apply save_history_ordered, Hp|].
  split; [apply save_history_ordered, Hp|].
  destruct (revert_document tm cm n p) as [->|(v & _ & _ & ->)]; [exact Hp|].
  apply save_history_ordered, Hp.
Qed.

Lemma page_history_stays_ordered_witness :
  history_ordered page_with_history
  /\ history_ordered (save times true page_with_history)
  /\ history_ordered (snd (revert times true 1 page_with_history)).
Proof.
  assert (Hp : history_ordered page_with_history).
  { split; cbn; repeat constructor; lia. }
  split; [exact Hp|].
  destruct (page_history_stays_ordered 0 times true 1 page_with_history Hp)
    as (Hsave & _ & _ & Hrevert).
  split; assumption.
Defined.



(** X6. [archive] sets the status to archived and leaves [publishedAt], the
    title and the content as they are: archiving a page that was never
    published does not stamp it, and archiving a published page keeps its
    stamp. *)
Theorem page_archive_keeps_stamp tm cm p :
  status (archive tm cm p) = archived
  /\ publishedAt (archive tm cm p) = publishedAt p
  /\ title (archive tm cm p) = title p
  /\ content (archive tm cm p) = content p.
Proof.
  unfold archive.
  rewrite PageProps.save_status, PageProps.save_publishedAt,
    PageProps.save_title, PageProps.save_content.
  cbn. destruct (publishedAt p); repeat split.
Qed.

(** X7. After [publish] at a time [now] the virtual [isPublished] holds at
    every time from [now] on, and after [archive] it holds at no time. A
    page whose status is published and whose [publishedAt] is [null]
    counts as published at every time that is not before the epoch. *)
Theorem page_isPublished_after now tm cm p t :
  (now <= t -> isPublished t (publish now tm cm p) = true)
  /\ isPublished t (archive tm cm p) = false
  /\ (status p = published -> publishedAt p = None -> 0 <= t ->
      isPublished t p = true).
Proof.
  unfold isPublished. split; [|split].
  - intros Ht. unfold publish.
    rewrite PageProps.save_status, PageProps.save_publishedAt. cbn. lia.
  - unfold archive. rewrite PageProps.save_status. reflexivity.
  - intros -> -> Ht. cbn. lia.
Qed.

Lemma page_isPublished_after_witness :
  isPublished 950 (publish 900 times false page) = true
  /\ isPublished 5 (set_status published page) = true.
Proof.
  split.
  - apply (proj1 (page_isPublished_after 900 times false page 950)). lia.
  - apply (proj2 (proj2 (page_isPublished_after 0 times false
                           (set_status published page) 5)));
      [reflexivity | reflexivity | lia].
Defined.

(** The pieces of a split are at least one and at most one more than the
    characters of the string. *)
Lemma split_go_length s : forall in_run piece,
  (1 <= length (split_go in_run piece s) <= String.length s + 1)%nat.
Proof.
  induction s as [|c s IH]; intros in_run piece; cbn; [lia|].
  destruct (JsString.is_white c); [destruct in_run|]; cbn;
    match goal with
    | |- context [split_go ?r ?q s] => specialize (IH r q); lia
    end.
Qed.

(** X8. [readTime] is never less than one minute, also for an empty content,
    and it is one minute for every content of fewer than 200 characters;
    it is at most one more than the count of characters divided by 200,
    rounded down. *)
Theorem page_readTime_bounds p :
  1 <= readTime p
  /\ readTime p <= Z.of_nat (String.length (content p)) / 200 + 1
  /\ ((String.length (content p) < 200)%nat -> readTime p = 1).
Proof.
  unfold readTime, split_white.
  pose proof (split_go_length (content p) false EmptyString) as [Hlo Hhi].
  set (n := length (split_go false EmptyString (content p))) in *.
  assert (H1 : 1 <= (Z.of_nat n + 200 - 1) / 200).
  { apply Z.div_le_lower_bound; lia. }
  assert (H2 : (Z.of_nat n + 200 - 1) / 200
               <= Z.of_nat (String.length (content p)) / 200 + 1).
  { replace (Z.of_nat (String.length (content p)) / 200 + 1)
      with ((Z.of_nat (String.length (content p)) + 1 * 200) / 200)
      by (rewrite Z.div_add by lia; reflexivity).
    apply Z.div_le_mono; lia. }
  split; [exact H1|]. split; [exact H2|].
  intros Hlen.
  assert (Z.of_nat (String.length (content p)) / 200 = 0)
    by (apply Z.div_small; lia).
  lia.
Qed.

Lemma page_readTime_bounds_witness : readTime page = 1.
Proof.
  apply (proj2 (proj2 (page_readTime_bounds page))). cbn. lia.
Defined.

(** X9. [addRelatedPage] never stores a page twice: a list of related pages
    without repetition stays so, the page added is in the list afterwards,
    the pages that were there keep their places, and adding the same page
    again changes nothing in the list. *)
Theorem page_addRelatedPage_no_repetition tm cm pageId d :
  (NoDup (relatedPages d) -> NoDup (relatedPages (addRelatedPage tm cm pageId d)))
  /\ pageId ∈ relatedPages (addRelatedPage tm cm pageId d)
  /\ relatedPages d `prefix_of` relatedPages (addRelatedPage tm cm pageId d)
  /\ (forall tm' cm',
        relatedPages (addRelatedPage tm' cm' pageId (addRelatedPage tm cm pageId d))
        = relatedPages (addRelatedPage tm cm pageId d))
  /\ (length (relatedPages (addRelatedPage tm cm pageId d))
      <= S (length (relatedPages d)))%nat.
Proof.
  unfold addRelatedPage. cbn [relatedPages].
  case_bool_decide as Hin; cbn [negb].
  - split; [auto|]. split; [exact Hin|]. split; [reflexivity|].
    split; [|lia].
    intros _ _. rewrite bool_decide_eq_true_2 by exact Hin. reflexivity.
  - split.
    { intros Hnd. apply NoDup_app. split; [exact Hnd|]. split.
      - intros x Hx Hx'. apply list_elem_of_singleton in Hx'. subst. contradiction.
      - apply NoDup_singleton. }
    split; [apply elem_of_app; right; apply list_elem_of_singleton; reflexivity|].
    split; [eexists; reflexivity|].
    split; [|rewrite length_app; cbn; lia].
    intros _ _. rewrite bool_decide_eq_true_2; [reflexivity|].
    apply elem_of_app. right. apply list_elem_of_singleton. reflexivity.
Qed.

Lemma page_addRelatedPage_no_repetition_witness :
  NoDup (relatedPages (addRelatedPage times false "p2"
                         (mkDoc page ["p1"; "p2"] false))).
Proof.
  apply (proj1 (page_addRelatedPage_no_repetition times false "p2"
                  (mkDoc page ["p1"; "p2"] false))).
  cbn. apply NoDup_cons. split; [|apply NoDup_singleton].
  intros H. apply list_elem_of_singleton in H. discriminate H.
Defined.

(** The derivatives of the slug pattern are the pattern itself and the
    pattern inside a word. *)
Lemma test_Empty s : Regex.test Regex.Empty s = false.
Proof. induction s; cbn; auto. Qed.

Lemma slug_pattern_states s :
  Regex.test slug_pattern s = slug_run false s
  /\ Regex.test slug_pattern_in_word s = slug_run true s.
Proof.
  induction s as [|c s [IH0 IH1]]; [split; reflexivity|].
  assert (Hdash : bool_decide (c = "-"%char) = true -> is_lower_alnum c = false)
    by (intros H; apply bool_decide_eq_true_1 in H; subst; reflexivity).
  unfold slug_pattern, slug_pattern_in_word, Regex.plus, Regex.lit in *.
  cbn [Regex.test slug_run Regex.deriv Regex.nullable andb orb].
  destruct (is_lower_alnum c) eqn:Ha, (bool_decide (c = "-"%char)) eqn:Hd;
    try (specialize (Hdash eq_refl); discriminate);
    cbn [Regex.cat Regex.alt andb]; rewrite ?test_Empty; auto.
Qed.

(** A reading that ends in a word saw only letters, digits and hyphens,
    no hyphen at the end and no two hyphens in a row. *)
Lemma slug_run_chars s : forall in_word c,
  slug_run in_word s = true -> c ∈ list_ascii_of_string s ->
  is_lower_alnum c = true \/ c = "-"%char.
Proof.
  induction s as [|a s IH]; intros in_word c Hrun Hc; [inversion Hc|].
  cbn in Hrun, Hc.
  destruct (is_lower_alnum a) eqn:Ha.
  - apply elem_of_cons in Hc as [->|Hc]; [auto | eauto].
  - destruct in_word; cbn in Hrun; [|discriminate].
    case_bool_decide as Hd; [|discriminate].
    apply elem_of_cons in Hc as [->|Hc]; [auto | eauto].
Qed.

Lemma append_String a s t : String a s +:+ t = String a (s +:+ t).
Proof. reflexivity. Qed.

Lemma append_Empty t : EmptyString +:+ t = t.
Proof. reflexivity. Qed.

Lemma slug_run_no_final_hyphen pre : forall in_word,
  slug_run in_word (pre +:+ "-") = false.
Proof.
  induction pre as [|a pre IH]; intros in_word.
  - rewrite append_Empty. destruct in_word; reflexivity.
  - rewrite append_String. cbn [slug_run].
    destruct (is_lower_alnum a); [apply IH|].
    destruct (in_word && bool_decide (a = "-"%char)); [apply IH | reflexivity].
Qed.

Lemma slug_run_no_double_hyphen pre post : forall in_word,
  slug_run in_word (pre +:+ "--" +:+ post) = false.
Proof.
  induction pre as [|a pre IH]; intros in_word.
  - rewrite append_Empty, !append_String. destruct in_word; reflexivity.
  - rewrite append_String. cbn [slug_run].
    destruct (is_lower_alnum a); [apply IH|].
    destruct (in_word && bool_decide (a = "-"%char)); [apply IH | reflexivity].
Qed.

(** A string of letters, digits and single inner hyphens is read to the
    end. *)
Lemma slug_run_complete s : forall in_word,
  (forall c, c ∈ list_ascii_of_string s -> is_lower_alnum c = true \/ c = "-"%char) ->
  (forall pre, s <> pre +:+ "-") ->
  (forall pre post, s <> pre +:+ "--" +:+ post) ->
  (in_word = false -> s <> EmptyString /\ forall rest, s <> "-" +:+ rest) ->
  slug_run in_word s = true.
Proof.
  induction s as [|a s IH]; intros in_word Hchars Hend Hdouble Hstart.
  - destruct in_word; [reflexivity|]. destruct (Hstart eq_refl) as [H _]. congruence.
  - cbn.
    assert (Htail_chars : forall c, c ∈ list_ascii_of_string s ->
                                    is_lower_alnum c = true \/ c = "-"%char).
    { intros c Hc. apply Hchars. cbn. apply elem_of_cons. right. exact Hc. }
    assert (Htail_end : forall pre, s <> pre +:+ "-").
    { intros pre ->. apply (Hend (String a pre)). reflexivity. }
    assert (Htail_double : forall pre post, s <> pre +:+ "--" +:+ post).
    { intros pre post ->. apply (Hdouble (String a pre) post). reflexivity. }
    destruct (is_lower_alnum a) eqn:Ha.
    + apply IH; auto; intros; discriminate.
    + assert (Hhyphen : is_lower_alnum a = true \/ a = "-"%char)
        by (apply Hchars; cbn; apply elem_of_cons; left; reflexivity).
      destruct Hhyphen as [H| ->]; [congruence|].
      destruct in_word.
      * cbn. apply IH; auto. intros _. split.
        -- intros ->. apply (Hend EmptyString). reflexivity.
        -- intros rest ->. apply (Hdouble EmptyString rest). reflexivity.
      * destruct (Hstart eq_refl) as [_ H]. exfalso. apply (H s). reflexivity.
Qed.

(** X10. The slug validator accepts exactly the non-empty strings of lower-case
    letters, digits and hyphens that have no hyphen at either end and no
    two hyphens in a row. *)
Theorem page_slug_validator_accepts v :
  slug_validator v = true <->
  v <> EmptyString
  /\ (forall c, c ∈ list_ascii_of_string v ->
        is_lower_alnum c = true \/ c = "-"%char)
  /\ (forall rest, v <> "-" +:+ rest)
  /\ (forall pre, v <> pre +:+ "-")
  /\ (forall pre post, v <> pre +:+ "--" +:+ post).
Proof.
  unfold slug_validator. rewrite (proj1 (slug_pattern_states v)). split.
  - intros Hrun. split; [intros ->; discriminate|].
    split; [intros c; apply (slug_run_chars v false c Hrun)|].
    split; [intros rest ->; discriminate|].
    split.
    + intros pre ->. rewrite slug_run_no_final_hyphen in Hrun. discriminate.
    + intros pre post ->. rewrite slug_run_no_double_hyphen in Hrun. discriminate.
  - intros (Hne & Hchars & Hstart & Hend & Hdouble).
    apply slug_run_complete; auto.
Qed.

Lemma page_slug_validator_accepts_witness :
  slug_validator "bitkisel-tedavi" = true /\ "bitkisel-tedavi" <> EmptyString.
Proof.
  split; [reflexivity|].
  apply (proj1 (page_slug_validator_accepts "bitkisel-tedavi")). reflexivity.
Defined.

(** Slugs the validator accepts and rejects. *)
Example slug_validator_samples :
  map slug_validator
    ["akupunktur"; "bitkisel-tedavi-2"; ""; "-tedavi"; "tedavi-"; "a--b";
     "Tedavi"; "bitkisel tedavi"]
  = [true; true; false; false; false; false; false; false].
Proof. reflexivity. Qed.



End PageMoreProps.

(** ** Media: repeated saves, soft delete and queries *)

Module MediaMoreProps.
Import Store Media MediaMore Samples.

(** The two results of the pre-save hook. *)
Lemma pre_save_document m :
  snd (pre_save m) = set_tags (JsSet.new_Set (map normalize_tag (tags m))) m.
Proof.
  destruct m as [ti tg mt im an]. unfold pre_save.
  destruct tg as [|x l]; cbn -[JsSet.new_Set normalize_tag];
    repeat case_match; reflexivity.
Qed.

Lemma pre_save_completion_tags m v :
  fst (pre_save (set_tags v m)) = fst (pre_save m).
Proof.
  destruct m as [ti tg mt im an]. unfold pre_save.
  destruct tg, v; cbn -[JsSet.new_Set normalize_tag];
    repeat case_match; reflexivity.
Qed.

Lemma filter_members {A} (f : A -> bool) (l : list A) :
  (forall y, y ∈ l -> f y = true) -> List.filter f l = l.
Proof.
  induction l as [|x l IH]; intros Hf; cbn; [reflexivity|].
  rewrite Hf by (apply elem_of_cons; left; reflexivity).
  rewrite IH; [reflexivity|].
  intros y Hy. apply Hf. apply elem_of_cons. right. exact Hy.
Qed.

(** A list without repetition is the list of its first occurrences. *)
Lemma new_Set_NoDup l : NoDup l -> JsSet.new_Set l = l.
Proof.
  rewrite JsSetProps.new_Set_first_occurrences.
  induction 1 as [|x l Hx Hl IH]; cbn; [reflexivity|].
  rewrite IH. f_equal. apply filter_members.
  intros y Hy. rewrite bool_decide_eq_false_2; [reflexivity|].
  intros ->. contradiction.
Qed.

Lemma map_fixed {A} (f : A -> A) (l : list A) :
  Forall (fun x => f x = x) l -> map f l = l.
Proof. induction 1 as [|x l Hx _ IH]; cbn; [reflexivity|]. rewrite Hx, IH. reflexivity. Qed.

Lemma normalize_tag_idem tag : normalize_tag (normalize_tag tag) = normalize_tag tag.
Proof.
  unfold normalize_tag at 1.
  rewrite MediaProps.normalize_tag_lower.
  unfold normalize_tag. apply JsStringProps.trim_idem.
Qed.

(** Normalized tags are normalized to themselves. *)
Lemma new_Set_normalize_twice l :
  JsSet.new_Set (map normalize_tag (JsSet.new_Set (map normalize_tag l)))
  = JsSet.new_Set (map normalize_tag l).
Proof.
  rewrite (map_fixed normalize_tag (JsSet.new_Set (map normalize_tag l))).
  - apply new_Set_NoDup, JsSetProps.NoDup_new_Set.
  - apply Forall_forall. intros tag Hin.
    apply (proj1 (JsSetProps.elem_of_new_Set _ _)) in Hin.
    apply list_elem_of_In, in_map_iff in Hin as (raw & <- & _).
    apply normalize_tag_idem.
Qed.

Lemma pre_save_again m : pre_save (snd (pre_save m)) = pre_save m.
Proof.
  apply injective_projections.
  - rewrite pre_save_document. apply pre_save_completion_tags.
  - rewrite !pre_save_document. cbn [tags set_tags].
    rewrite new_Set_normalize_twice. reflexivity.
Qed.

(** X12. A second run of the pre-save hook on the document the first run left
    gives the same completion and changes nothing, so a save that follows
    a save sends no update. *)
Theorem media_pre_save_twice m :
  pre_save (snd (pre_save m)) = pre_save m
  /\ modified_paths (snd (pre_save m)) (snd (pre_save (snd (pre_save m)))) = []
  /\ (fst (pre_save m) = Returned ->
      Media.save (snd (pre_save m)) (snd (pre_save m))
      = (Returned, snd (pre_save m), [])).
Proof.
  assert (Hnone : forall x, modified_paths x x = []).
  { intros x. unfold modified_paths.
    rewrite !bool_decide_eq_true_2 by reflexivity. reflexivity. }
  split; [apply pre_save_again|]. split.
  - rewrite pre_save_again. apply Hnone.
  - intros Hret. unfold Media.save.
    rewrite (surjective_pairing (pre_save (snd (pre_save m)))).
    rewrite pre_save_again, Hret, Hnone. reflexivity.
Qed.

Lemma media_pre_save_twice_witness :
  Media.save (snd (pre_save media)) (snd (pre_save media))
  = (Returned, snd (pre_save media), []).
Proof.
  apply (proj2 (proj2 (media_pre_save_twice media))). reflexivity.
Defined.

(** The completion of the hook depends on the media type and the sizes
    only, and the hook changes neither. *)
Lemma pre_save_completion_eq x y :
  mediaType x = mediaType y -> imageMetadata x = imageMetadata y ->
  fst (pre_save x) = fst (pre_save y).
Proof.
  destruct x as [ti tg mt im an], y as [ti' tg' mt' im' an']. cbn.
  intros <- <-. unfold pre_save.
  destruct tg, tg'; cbn -[JsSet.new_Set normalize_tag];
    repeat case_match; reflexivity.
Qed.

Lemma pre_save_keeps_type m :
  mediaType (snd (pre_save m)) = mediaType m
  /\ imageMetadata (snd (pre_save m)) = imageMetadata m.
Proof. rewrite pre_save_document. split; reflexivity. Qed.

(** The three counter methods: completion, document and updates. *)
Lemma increment_unfold c m :
  exists a',
    counter_of c a' = counter_of c (analytics m) + 1
    /\ fst (fst (increment c m)) = fst (pre_save m)
    /\ snd (fst (increment c m)) = snd (pre_save (set_analytics a' m))
    /\ (is_thrown (fst (pre_save m)) = true -> snd (increment c m) = []).
Proof.
  destruct c; unfold increment, incrementViews, incrementDownloads,
    incrementShares, Media.save;
    match goal with
    | |- context [pre_save (set_analytics ?a m)] =>
        exists a;
        pose proof (pre_save_completion_eq (set_analytics a m) m eq_refl eq_refl) as Hc;
        destruct (pre_save (set_analytics a m)) as [cpl m'] eqn:Hpre
    end;
    cbn [fst snd] in Hc; rewrite <- Hc;
    (split; [reflexivity|]); destruct cpl; cbn [fst snd is_thrown];
    (split; [reflexivity|]); (split; [reflexivity|]);
    first [discriminate | reflexivity].
Qed.

(** X13. A save that the dimension check rejects sends nothing to the store,
    while the counter of the document in memory is already one higher: on
    an image with a negative width each of the three counter methods fails
    with the width error. *)
Theorem media_increment_rejected c m :
  (is_thrown (fst (pre_save m)) = true ->
     fst (fst (increment c m)) = fst (pre_save m)
     /\ snd (increment c m) = []
     /\ counter_of c (analytics (snd (fst (increment c m))))
        = counter_of c (analytics m) + 1)
  /\ (forall w, mediaType m = image -> width (imageMetadata m) = Some w -> w < 0 ->
        fst (fst (increment c m))
        = Thrown (Error "Image width must be greater than 0")).
Proof.
  destruct (increment_unfold c m) as (a' & Hcount & Hcpl & Hdoc & Hnone).
  split.
  - intros Hthrown. split; [exact Hcpl|]. split; [apply Hnone, Hthrown|].
    rewrite Hdoc, CounterProps.pre_save_analytics. exact Hcount.
  - intros w Himg Hw Hneg. rewrite Hcpl.
    rewrite (MediaProps.pre_save_image_completion m Himg), Hw.
    destruct (Z.ltb_spec w 0); [reflexivity | lia].
Qed.

Lemma media_increment_rejected_witness :
  snd (incrementViews media_negative_width) = []
  /\ views (analytics (snd (fst (incrementViews media_negative_width)))) = 1
  /\ fst (fst (incrementViews media_negative_width))
     = Thrown (Error "Image width must be greater than 0").
Proof.
  destruct (media_increment_rejected c_views media_negative_width) as [Hany Hwidth].
  destruct (Hany eq_refl) as (_ & Hnone & Hcount).
  split; [exact Hnone|]. split; [exact Hcount|].
  apply (Hwidth (-1)); [reflexivity | reflexivity | lia].
Defined.

(** X14. Two calls of a counter method one after the other on the same
    document, the second on the document the first left, both go through
    and add up: the counter in memory and the stored counter are two
    higher than the loaded one. *)
Theorem media_increments_in_sequence c m (d : Store.Doc) :
  fst (fst (increment c m)) = Returned ->
  let m1 := snd (fst (increment c m)) in
  fst (fst (increment c m1)) = Returned
  /\ counter_of c (analytics (snd (fst (increment c m1))))
     = counter_of c (analytics m) + 2
  /\ apply_updates (snd (increment c m1)) (apply_updates (snd (increment c m)) d)
       !! counter_path c
     = Some (VNum (counter_of c (analytics m) + 2)).
Proof.
  intros Hret m1.
  destruct (increment_unfold c m) as (a' & _ & Hcpl & Hdoc & _).
  assert (Hret1 : fst (fst (increment c m1)) = Returned).
  { destruct (increment_unfold c m1) as (a1 & _ & Hcpl1 & _ & _).
    rewrite Hcpl1. subst m1. rewrite Hdoc.
    destruct (pre_save_keeps_type (set_analytics a' m)) as [Ht Hi].
    rewrite (pre_save_completion_eq _ m Ht Hi), <- Hcpl. exact Hret. }
  destruct (CounterProps.increment_returned c m Hret) as (Hmem & _).
  destruct (CounterProps.increment_returned c m1 Hret1) as (Hmem1 & tu & _ & Hus).
  fold m1 in Hmem.
  split; [exact Hret1|]. split; [lia|].
  rewrite Hus, CounterProps.apply_updates_snoc. cbn [apply_update].
  rewrite lookup_insert_eq. f_equal. f_equal. lia.
Qed.

Lemma media_increments_in_sequence_witness :
  views (analytics (snd (fst (incrementViews
           (snd (fst (incrementViews media_loaded))))))) = 7.
Proof.
  apply (media_increments_in_sequence c_views media_loaded ∅ eq_refl).
Defined.

(** X15. [softDelete] marks the document in memory inactive with the user and
    the time of the call, and [restore] after it gives the document a
    plain save of the original would give, when the original was active
    and unmarked. Both complete as a plain save of the document does;
    when the dimension check rejects the save, the stored document stays
    as it was, active, although the document in memory is marked
    deleted. *)
Theorem media_softDelete_restore userId now d :
  (isActive (snd (softDelete userId now d)) = false
   /\ deletedBy (snd (softDelete userId now d)) = Some userId
   /\ deletedAt (snd (softDelete userId now d)) = Some now)
  /\ fst (softDelete userId now d) = fst (save d)
  /\ fst (restore (snd (softDelete userId now d))) = fst (save d)
  /\ (isActive d = true -> deletedBy d = None -> deletedAt d = None ->
      snd (restore (snd (softDelete userId now d))) = snd (save d))
  /\ (is_thrown (fst (save d)) = true ->
      stored_after d (softDelete userId now d) = d
      /\ stored_after d (restore d) = d).
Proof.
  unfold softDelete, restore, save, stored_after.
  cbn [MediaMore.media isActive deletedBy deletedAt].
  pose proof (pre_save_again (MediaMore.media d)) as Hagain.
  destruct (pre_save (MediaMore.media d)) as [cpl m'] eqn:Hpre.
  cbn [fst snd MediaMore.media isActive deletedBy deletedAt] in *.
  rewrite Hagain.
  split; [repeat split|]. split; [reflexivity|]. split; [reflexivity|].
  split.
  - intros Ha Hb Ht. rewrite <- Ha, <- Hb, <- Ht. reflexivity.
  - destruct cpl; [discriminate|]. intros _. split; reflexivity.
Qed.

Lemma media_softDelete_restore_witness :
  snd (restore (snd (softDelete "u1" 50 media_doc))) = snd (save media_doc)
  /\ stored_after media_doc_negative_width
       (softDelete "u1" 50 media_doc_negative_width)
     = media_doc_negative_width.
Proof.
  destruct (media_softDelete_restore "u1" 50 media_doc)
    as (_ & _ & _ & Hround & _).
  destruct (media_softDelete_restore "u1" 50 media_doc_negative_width)
    as (_ & _ & _ & _ & Hstored).
  split.
  - apply Hround; reflexivity.
  - apply Hstored. reflexivity.
Defined.

(** X16. In the queries of [getByCategory] and [getPublicMedia] a key of the
    caller's filter replaces the fixed condition on the same key: the
    queries ask for active media only as long as the filter has no
    [isActive] key, and with a filter that sets [isActive] to false they
    ask for the soft-deleted media. Every other key of the filter is a
    condition of the query. *)
Theorem media_query_filter_overrides category (filter : gmap string JsValue) :
  (filter !! "isActive" = None ->
     conditions (getByCategory category filter) !! "isActive" = Some (VBool true)
     /\ conditions (getPublicMedia filter) !! "isActive" = Some (VBool true))
  /\ (forall k v, filter !! k = Some v ->
        conditions (getByCategory category filter) !! k = Some v
        /\ conditions (getPublicMedia filter) !! k = Some v)
  /\ (filter !! "category" = None ->
      conditions (getByCategory category filter) !! "category" = Some (VStr category))
  /\ (forall k, k <> "category" -> k <> "isActive" ->
        conditions (getByCategory category filter) !! k = filter !! k)
  /\ sort (getByCategory category filter) = [("createdAt", -1)]
  /\ sort (getPublicMedia filter) = [("createdAt", -1)].
Proof.
  unfold getByCategory, getPublicMedia, spread_after. cbn [conditions sort].
  split; [|split; [|split; [|split]]].
  - intros Hnone. split; rewrite lookup_union_r by exact Hnone; reflexivity.
  - intros k v Hk. split; apply lookup_union_Some_l; exact Hk.
  - intros Hnone. rewrite lookup_union_r by exact Hnone. reflexivity.
  - intros k Hc Ha.
    destruct (filter !! k) as [v|] eqn:Hk.
    + apply lookup_union_Some_l. exact Hk.
    + rewrite lookup_union_r by exact Hk.
      rewrite !lookup_insert_ne by congruence. reflexivity.
  - split; reflexivity.
Qed.

Lemma media_query_filter_overrides_witness :
  conditions (getByCategory "gallery" ∅) !! "isActive" = Some (VBool true)
  /\ conditions (getPublicMedia (<["isActive" := VBool false]> ∅)) !! "isActive"
     = Some (VBool false).
Proof.
  split.
  - apply (proj1 (media_query_filter_overrides "gallery" ∅)). reflexivity.
  - apply (proj1 (proj2 (media_query_filter_overrides "gallery"
                           (<["isActive" := VBool false]> ∅)))).
    reflexivity.
Defined.

End MediaMoreProps.

(** ** User: the reset token as a string *)

Module UserMoreProps.
Import User UserMore Samples.

Lemma from_hex_byte b :
  Byte.of_N (16 * hex_value (hex_digit (Byte.to_N b / 16))
             + hex_value (hex_digit (Byte.to_N b mod 16))) = Some b.
Proof. destruct b; reflexivity. Qed.

Lemma hex_digit_byte b :
  is_hex_digit (hex_digit (Byte.to_N b / 16)) = true
  /\ is_hex_digit (hex_digit (Byte.to_N b mod 16)) = true.
Proof. destruct b; split; reflexivity. Qed.

(** Reading the digits back gives the bytes. *)
Lemma from_hex_toString_hex l : from_hex (toString_hex l) = Some l.
Proof.
  induction l as [|b l IH]; [reflexivity|].
  cbn [toString_hex from_hex]. rewrite from_hex_byte, IH. reflexivity.
Qed.

(** X17. The token [generatePasswordResetToken] returns is written with the
    digits 0-9 and a-f only, two for each random byte, so 64 characters
    for 32 bytes; and it determines the random bytes: two calls return the
    same token only when they drew the same bytes. *)
Theorem user_reset_token_format
    (sha256_hex : string -> string) randomBytes32 now u :
  let token := fst (generatePasswordResetToken sha256_hex randomBytes32 now u) in
  Forall (fun c => is_hex_digit c = true) (list_ascii_of_string token)
  /\ from_hex token = Some randomBytes32
  /\ String.length token = (2 * length randomBytes32)%nat
  /\ (forall randomBytes32' now' u',
        fst (generatePasswordResetToken sha256_hex randomBytes32' now' u') = token ->
        randomBytes32' = randomBytes32).
Proof.
  cbn [generatePasswordResetToken fst].
  split; [|split; [|split]].
  - induction randomBytes32 as [|b l IH]; cbn; [constructor|].
    destruct (hex_digit_byte b) as [Hhi Hlo].
    constructor; [exact Hhi|]. constructor; [exact Hlo | exact IH].
  - apply from_hex_toString_hex.
  - apply UserProps.toString_hex_length.
  - intros l' _ _ Heq.
    pose proof (from_hex_toString_hex l') as Hl'.
    rewrite Heq, from_hex_toString_hex in Hl'. congruence.
Qed.

End UserMoreProps.

(** ** Settings: validation and the hook together, and the email pattern *)

Module SettingsMoreProps.
Import Settings RegexMore Samples.

(** When no validator fails, each validator of the schema passed. *)
Lemma failing_nil vs :
  failing vs = [] -> forall v, In v vs -> snd v = true.
Proof.
  unfold failing. induction vs as [|[path ok] vs IH]; intros Hnil v Hin;
    [inversion Hin|].
  cbn in Hnil. destruct ok; cbn in Hnil; [|discriminate].
  destruct Hin as [<-|Hin]; [reflexivity | apply IH; assumption].
Qed.

Lemma validate_nil s :
  validate s = [] ->
  required (email (contact s)) = true
  /\ required (phone (contact s)) = true
  /\ 6 <= passwordMinLength s
  /\ 1 <= imageQuality s <= 100.
Proof.
  intros Hnil. pose proof (failing_nil _ Hnil) as Hall.
  unfold validators, contact_validators, other_validators in Hall.
  pose proof (Hall ("contact.email", required (email (contact s)))) as He.
  pose proof (Hall ("contact.phone", required (phone (contact s)))) as Hp.
  pose proof (Hall ("security.passwordMinLength", 6 <=? passwordMinLength s)) as Hl.
  pose proof (Hall ("performance.imageQuality", 1 <=? imageQuality s)) as Hq1.
  pose proof (Hall ("performance.imageQuality", imageQuality s <=? 100)) as Hq2.
  cbn [snd] in *.
  rewrite He, Hp by (cbn; tauto).
  specialize (Hl ltac:(cbn; tauto)). specialize (Hq1 ltac:(cbn; tauto)).
  specialize (Hq2 ltac:(cbn; tauto)).
  repeat split; lia.
Qed.

(** X18. On a document whose password length and image quality are numbers,
    the checks of the pre-save hook repeat validators of the schema: when
    validation passes the hook passes, so a save returns exactly when no
    validator fails and otherwise fails with a validation error that names
    at least one path; none of the three errors of the hook ever comes out
    of a save. *)
Theorem settings_hook_never_fails_a_save s :
  (validate s = [] -> pre_save s = Returned)
  /\ (save s = Returned <-> validate s = [])
  /\ (save s = Returned
      \/ exists path paths, save s = Thrown (ValidationError (path :: paths)))
  /\ (forall message, save s <> Thrown (Error message)).
Proof.
  assert (Hhook : validate s = [] -> pre_save s = Returned).
  { intros Hnil. destruct (validate_nil s Hnil) as (He & Hp & Hl & Hq1 & Hq2).
    unfold pre_save. unfold required in He, Hp. rewrite He, Hp. cbn [negb andb].
    destruct (Z.ltb_spec (passwordMinLength s) 6); [lia|].
    destruct (Z.ltb_spec (imageQuality s) 1); [lia|].
    destruct (Z.ltb_spec 100 (imageQuality s)); [lia|]. reflexivity. }
  split; [exact Hhook|].
  unfold save. destruct (validate s) as [|path paths] eqn:Hv.
  - rewrite (Hhook eq_refl). repeat split; auto; discriminate.
  - split; [split; discriminate|]. split; [right; eauto | discriminate].
Qed.

Lemma settings_hook_never_fails_a_save_witness : pre_save settings = Returned.
Proof.
  apply (proj1 (settings_hook_never_fails_a_save settings)). reflexivity.
Defined.

(** *** The strings of the email pattern *)

Lemma chars_append s1 s2 :
  list_ascii_of_string (s1 +:+ s2)
  = list_ascii_of_string s1 ++ list_ascii_of_string s2.
Proof.
  induction s1 as [|c s1 IH]; [reflexivity|].
  change (String c s1 +:+ s2) with (String c (s1 +:+ s2)). cbn. rewrite IH.
  reflexivity.
Qed.

Lemma append_Empty_r s : s +:+ EmptyString = s.
Proof.
  induction s as [|c s IH]; [reflexivity|].
  change (String c s +:+ EmptyString) with (String c (s +:+ EmptyString)).
  rewrite IH. reflexivity.
Qed.

Lemma append_assoc s1 s2 s3 : (s1 +:+ s2) +:+ s3 = s1 +:+ (s2 +:+ s3).
Proof.
  induction s1 as [|c s1 IH]; [reflexivity|].
  change (String c s1 +:+ s2) with (String c (s1 +:+ s2)).
  change (String c (s1 +:+ s2) +:+ s3) with (String c ((s1 +:+ s2) +:+ s3)).
  rewrite IH. reflexivity.
Qed.

Lemma length_append s1 s2 :
  String.length (s1 +:+ s2) = (String.length s1 + String.length s2)%nat.
Proof.
  induction s1 as [|c s1 IH]; [reflexivity|].
  change (String c s1 +:+ s2) with (String c (s1 +:+ s2)). cbn. rewrite IH.
  reflexivity.
Qed.

(** Every character of a matched string is in a class of the pattern. *)
Lemma lang_classes (P : ascii -> Prop) r s :
  Regex.lang r s ->
  List.Forall (fun p => forall c, p c = true -> P c) (RegexMore.classes r) ->
  List.Forall P (list_ascii_of_string s).
Proof.
  induction 1 as [|p c Hc|a b s1 s2 Ha IHa Hb IHb|a b s Ha IHa|a b s Hb IHb
                  |a|a s1 s2 Ha IHa Hs2 IHs2]; cbn [RegexMore.classes]; intros Hcl.
  - constructor.
  - apply Forall_cons_1 in Hcl as [Hp _]. constructor; [apply Hp, Hc | constructor].
  - apply Forall_app in Hcl as [H1 H2]. rewrite chars_append.
    apply Forall_app. split; auto.
  - apply Forall_app in Hcl as [H1 H2]. auto.
  - apply Forall_app in Hcl as [H1 H2]. auto.
  - constructor.
  - rewrite chars_append. apply Forall_app. split; auto.
Qed.

(** A non-empty string of [Star r] ends with a string of [r]. *)
Lemma lang_Star_last r s :
  Regex.lang (Regex.Star r) s ->
  s = EmptyString \/ exists pre last, s = pre +:+ last /\ Regex.lang r last.
Proof.
  intros H. remember (Regex.Star r) as q eqn:Hq.
  induction H as [|p c Hc|a b s1 s2 Ha IHa Hb IHb|a b s Ha IHa|a b s Hb IHb
                  |a|a s1 s2 Ha IHa Hs2 IHs2]; try discriminate.
  - left. reflexivity.
  - injection Hq as ->. right.
    destruct (IHs2 eq_refl) as [->|(pre & last & -> & Hlast)].
    + exists EmptyString, s1. rewrite append_Empty_r. auto.
    + exists (s1 +:+ pre), last. rewrite append_assoc. auto.
Qed.

Lemma lang_plus_last r s :
  Regex.lang (Regex.plus r) s ->
  exists pre last, s = pre +:+ last /\ Regex.lang r last.
Proof.
  unfold Regex.plus. intros H.
  apply RegexProps.lang_Cat_inv in H as (s1 & s2 & -> & H1 & H2).
  destruct (lang_Star_last r s2 H2) as [->|(pre & last & -> & Hlast)].
  - exists EmptyString, s1. rewrite append_Empty_r. auto.
  - exists (s1 +:+ pre), last. rewrite append_assoc. auto.
Qed.

Lemma lang_word s :
  Regex.lang Regex.word s ->
  exists c, s = String c EmptyString /\ Regex.is_word c = true.
Proof. apply RegexProps.lang_Chr_inv. Qed.

Lemma count_occ_none (P : ascii -> Prop) (l : list ascii) (x : ascii) :
  List.Forall P l -> ~ P x -> count_occ ascii_dec l x = 0%nat.
Proof.
  intros Hall Hx. apply count_occ_not_In. intros Hin.
  rewrite List.Forall_forall in Hall. exact (Hx (Hall x Hin)).
Qed.

Lemma name_char_not_at : ~ name_char "@"%char.
Proof. intros [H|[H|H]]; discriminate. Qed.

Lemma name_char_word c : Regex.is_word c = true -> name_char c.
Proof. unfold name_char. auto. Qed.

Lemma name_char_dot_or_dash c :
  bool_decide (c = "."%char) || bool_decide (c = "-"%char) = true -> name_char c.
Proof.
  unfold name_char. intros H.
  apply orb_true_iff in H as [H|H]; apply bool_decide_eq_true_1 in H; auto.
Qed.

Lemma name_char_dot c : bool_decide (c = "."%char) = true -> name_char c.
Proof. unfold name_char. intros H. apply bool_decide_eq_true_1 in H. auto. Qed.

Ltac name_classes :=
  cbn;
  repeat (constructor;
          [first [exact name_char_word | exact name_char_dot_or_dash
                 | exact name_char_dot]|]);
  constructor.

(** X19. A string the email pattern accepts has exactly one [@], is written
    with letters, digits, underscores, dots, hyphens and that [@] only,
    starts with a letter, digit or underscore, and ends with a dot
    followed by two or three letters, digits or underscores: an address
    with a plus sign, or with a last label of four characters or more, is
    rejected. *)
Theorem settings_email_pattern_accepts_only s :
  Regex.test email_pattern s = true ->
  count_occ ascii_dec (list_ascii_of_string s) "@"%char = 1%nat
  /\ List.Forall (fun c => name_char c \/ c = "@"%char) (list_ascii_of_string s)
  /\ (exists c rest, s = String c rest /\ Regex.is_word c = true)
  /\ (exists pre tld,
        s = pre +:+ "." +:+ tld
        /\ (2 <= String.length tld <= 3)%nat
        /\ List.Forall (fun c => Regex.is_word c = true) (list_ascii_of_string tld)).
Proof.
  intros Htest. apply RegexProps.test_lang in Htest.
  unfold email_pattern in Htest. cbv zeta in Htest.
  apply RegexProps.lang_Cat_inv in Htest as (n1 & r1 & -> & Hn1 & Htest).
  apply RegexProps.lang_Cat_inv in Htest as (at_ & r2 & -> & Hat & Htest).
  apply RegexProps.lang_Cat_inv in Htest as (n2 & sfx & -> & Hn2 & Hsfx).
  apply RegexProps.lang_Chr_inv in Hat as (a & -> & Ha).
  apply bool_decide_eq_true_1 in Ha. subst a.
  assert (Hname : forall n,
            Regex.lang
              (Regex.Cat (Regex.plus Regex.word)
                 (Regex.Star (Regex.Cat (Regex.opt Regex.dot_or_dash)
                                (Regex.plus Regex.word)))) n ->
            List.Forall name_char (list_ascii_of_string n)).
  { intros n Hn. apply (lang_classes name_char _ _ Hn). name_classes. }
  assert (Hsfx_chars : List.Forall name_char (list_ascii_of_string sfx)).
  { apply (lang_classes name_char _ _ Hsfx). name_classes. }
  pose proof (Hname n1 Hn1) as Hc1. pose proof (Hname n2 Hn2) as Hc2.
  split; [|split; [|split]].
  - rewrite !chars_append, !count_occ_app.
    rewrite (count_occ_none name_char _ _ Hc1 name_char_not_at).
    rewrite (count_occ_none name_char _ _ Hc2 name_char_not_at).
    rewrite (count_occ_none name_char _ _ Hsfx_chars name_char_not_at).
    reflexivity.
  - rewrite !chars_append. repeat (apply Forall_app; split).
    + eapply List.Forall_impl; [|exact Hc1]. auto.
    + constructor; [right; reflexivity | constructor].
    + eapply List.Forall_impl; [|exact Hc2]. auto.
    + eapply List.Forall_impl; [|exact Hsfx_chars]. auto.
  - apply RegexProps.lang_Cat_inv in Hn1 as (w & r & -> & Hw & _).
    unfold Regex.plus in Hw.
    apply RegexProps.lang_Cat_inv in Hw as (c1 & r' & -> & Hc & _).
    apply lang_word in Hc as (c & -> & Hc). eauto.
  - destruct (lang_plus_last _ _ Hsfx) as (pre & last & -> & Hlast).
    apply RegexProps.lang_Cat_inv in Hlast as (dot & tld & -> & Hdot & Htld).
    apply RegexProps.lang_Chr_inv in Hdot as (d & -> & Hd).
    apply bool_decide_eq_true_1 in Hd. subst d.
    exists (n1 +:+ "@" +:+ n2 +:+ pre), tld.
    split; [rewrite !append_assoc; reflexivity|].
    apply RegexProps.lang_Cat_inv in Htld as (w1 & t1 & -> & Hw1 & Htld).
    apply RegexProps.lang_Cat_inv in Htld as (w2 & t2 & -> & Hw2 & Htld).
    apply lang_word in Hw1 as (c1 & -> & Hc1').
    apply lang_word in Hw2 as (c2 & -> & Hc2').
    apply RegexProps.lang_Alt_inv in Htld as [He|Hw3].
    + apply RegexProps.lang_Eps_inv in He as ->.
      rewrite !length_append, !chars_append. cbn. split; [lia|].
      repeat constructor; assumption.
    + apply lang_word in Hw3 as (c3 & -> & Hc3).
      rewrite !length_append, !chars_append. cbn. split; [lia|].
      repeat constructor; assumption.
Qed.

Lemma settings_email_pattern_accepts_only_witness :
  count_occ ascii_dec (list_ascii_of_string "info@klinik.com.tr") "@"%char = 1%nat.
Proof.
  apply (settings_email_pattern_accepts_only "info@klinik.com.tr"). reflexivity.
Defined.

(** Addresses the pattern accepts and rejects. *)
Example email_pattern_samples :
  map (Regex.test email_pattern)
    ["info@klinik.com.tr"; "dr.ayse-y@klinik.org"; "info@klinik.info";
     "ayse+randevu@klinik.com"; "info@@klinik.com"; "info@klinik"; ".info@klinik.com"]
  = [true; true; false; false; false; false; false].
Proof. reflexivity. Qed.

End SettingsMoreProps.

(** ** SEO: the canonical URL *)

Module SeoProps.
Import Seo.

(** X20. [fullCanonicalUrl] is never the empty string: it is the canonical URL
    when one is set and not empty, and the slug after a slash otherwise,
    an empty canonical URL counting as unset. The pre-save hook does not
    change it. *)
Theorem seo_fullCanonicalUrl_never_empty now this :
  fullCanonicalUrl this <> EmptyString
  /\ (forall u, canonicalUrl this = Some u -> u <> EmptyString ->
        fullCanonicalUrl this = u)
  /\ (canonicalUrl this = None \/ canonicalUrl this = Some EmptyString ->
      fullCanonicalUrl this = "/" +:+ pageSlug this)
  /\ fullCanonicalUrl (pre_save now this) = fullCanonicalUrl this.
Proof.
  unfold fullCanonicalUrl. cbn [pre_save canonicalUrl pageSlug].
  change ("/" +:+ pageSlug this) with (String "/" (pageSlug this)).
  destruct (canonicalUrl this) as [[|c u]|]; cbn [truthy_string].
  - split; [discriminate|]. split; [intros u [= <-] Hu; congruence|].
    split; reflexivity.
  - split; [discriminate|]. split; [intros u' [= <-] _; reflexivity|].
    split; [intros [H|H]; discriminate | reflexivity].
  - split; [discriminate|]. split; [intros u Hu; discriminate|].
    split; reflexivity.
Qed.

Lemma seo_fullCanonicalUrl_never_empty_witness :
  fullCanonicalUrl (mkSeo "Akupunktur" "akupunktur" (Some EmptyString) 0)
  = "/akupunktur".
Proof.
  apply (proj1 (proj2 (proj2 (seo_fullCanonicalUrl_never_empty 0
           (mkSeo "Akupunktur" "akupunktur" (Some EmptyString) 0))))).
  right. reflexivity.
Defined.

End SeoProps.

(** ** Connection helper: when it connects and how it ends *)

Module DatabaseProps.
Import Database.

Lemma or_default_truthy v fallback :
  truthy_string fallback = true -> truthy_string (or_default v fallback) = true.
Proof.
  intros Hf. unfold or_default. destruct v as [s|]; [|exact Hf].
  destruct (truthy_string s) eqn:Hs; [exact Hs | exact Hf].
Qed.

(** X21. [connectDB] calls [mongoose.connect] at most once, and only with the
    non-empty URL and the options configured for the environment. It
    resolves exactly when that call succeeds; in every other case (an
    environment that is not configured, a URL that is unset or empty, a
    connection that fails) its last actions are an error message and
    [process.exit(1)]. *)
Theorem database_connectDB_outcome env connect environment :
  let name := match environment with Some e => e | None => "development" end in
  let r := connectDB env connect environment in
  (forall u o, In (mongoose_connect u o) (fst r) ->
     truthy_string u = true
     /\ mongoDBConfig env name = Own (mkConfig (Some u) o)
     /\ connect_calls (fst r) = 1%nat)
  /\ (snd r = resolved <->
      exists u o, In (mongoose_connect u o) (fst r) /\ connect u o = None)
  /\ (snd r = resolved -> forall code, ~ In (process_exit code) (fst r))
  /\ (snd r <> resolved ->
      snd r = exited 1
      /\ exists before message,
           fst r = before ++ [console_error "Failed to connect to MongoDB:" message;
                              process_exit 1]).
Proof.
  cbv zeta. unfold connectDB.
  set (name := match environment with Some e => e | None => "development" end).
  destruct (mongoDBConfig env name) as [[[u|] o]| |] eqn:Hcfg;
    cbn [url options]; unfold connect_failed;
    [destruct (truthy_string u) eqn:Hu; cbn [negb];
     [destruct (connect u o) as [message|] eqn:Hconn|] | | |];
    cbn [fst snd app];
    (split; [|split; [|split]]).
  all: try (intros u' o' Hin; cbn in Hin; db_cases; auto; fail).
  all: try (split; [intros H; discriminate H |
                    intros (u' & o' & Hin & Hc); cbn in Hin; db_cases; congruence]).
  all: try (intros H; discriminate H).
  all: try (intros H; exfalso; apply H; reflexivity).
  all: try (intros _; split; [reflexivity|];
            match goal with
            | |- exists before message, [?a; ?b; ?c] = _ =>
                exists [a]; eexists; reflexivity
            | |- exists before message, [?b; ?c] = _ =>
                exists []; eexists; reflexivity
            end).
  split; [intros _; exists u, o; split; [left; reflexivity | exact Hconn]
         | reflexivity].
Qed.

(** X22. The environment defaults to development. Development and test fall
    back on a local database when their variable is unset or empty, and
    test never reads [MONGODB_URI]; production has no fallback, so with
    [MONGODB_URI] unset or empty it exits without a call of
    [mongoose.connect], as every environment of another name does. Only
    production connects with [ssl]. A variable that is set and not empty
    is the URL its environment connects to. *)
Theorem database_url_selection env connect :
  connectDB env connect None = connectDB env connect (Some "development")
  /\ (forall v, connectDB (<["MONGODB_URI" := v]> env) connect (Some "test")
               = connectDB env connect (Some "test"))
  /\ (env !! "MONGODB_URI" = None \/ env !! "MONGODB_URI" = Some EmptyString ->
      connectDB env connect (Some "production")
      = connect_failed [] (not_configured "production")
      /\ In (mongoose_connect "mongodb://localhost:27017/tamamlayici-saglik-cms"
               development_options)
            (fst (connectDB env connect (Some "development"))))
  /\ (forall name,
        name <> "development" -> name <> "production" -> name <> "test" ->
        snd (connectDB env connect (Some name)) = exited 1
        /\ connect_calls (fst (connectDB env connect (Some name))) = 0%nat)
  /\ (forall name u o,
        In (mongoose_connect u o) (fst (connectDB env connect (Some name))) ->
        (o !! "ssl" = Some (VBool true) <-> name = "production"))
  /\ (env !! "MONGODB_TEST_URI" = None
      \/ env !! "MONGODB_TEST_URI" = Some EmptyString ->
      In (mongoose_connect "mongodb://localhost:27017/tamamlayici-saglik-cms-test"
            development_options)
         (fst (connectDB env connect (Some "test"))))
  /\ (forall u, truthy_string u = true ->
        (env !! "MONGODB_URI" = Some u ->
         In (mongoose_connect u development_options)
            (fst (connectDB env connect (Some "development")))
         /\ In (mongoose_connect u production_options)
              (fst (connectDB env connect (Some "production"))))
        /\ (env !! "MONGODB_TEST_URI" = Some u ->
            In (mongoose_connect u development_options)
               (fst (connectDB env connect (Some "test"))))).
Proof.
  split; [reflexivity|]. split; [|split; [|split; [|split; [|split]]]].
  - intros v. unfold connectDB, mongoDBConfig. cbn [bool_decide].
    rewrite !(bool_decide_eq_false_2 ("test" = "development")) by discriminate.
    rewrite !(bool_decide_eq_false_2 ("test" = "production")) by discriminate.
    rewrite !(bool_decide_eq_true_2 ("test" = "test")) by reflexivity.
    rewrite lookup_insert_ne by discriminate. reflexivity.
  - intros Hunset. split.
    + unfold connectDB, mongoDBConfig.
      rewrite (bool_decide_eq_false_2 ("production" = "development")) by discriminate.
      rewrite (bool_decide_eq_true_2 ("production" = "production")) by reflexivity.
      cbn [url]. destruct Hunset as [-> | ->]; reflexivity.
    + unfold connectDB, mongoDBConfig.
      rewrite (bool_decide_eq_true_2 ("development" = "development")) by reflexivity.
      cbn [url options]. destruct Hunset as [-> | ->]; cbn [or_default truthy_string negb];
        destruct (connect _ _); cbn; auto.
  - intros name Hd Hp Ht. unfold connectDB, mongoDBConfig.
    rewrite (bool_decide_eq_false_2 (name = "development")) by exact Hd.
    rewrite (bool_decide_eq_false_2 (name = "production")) by exact Hp.
    rewrite (bool_decide_eq_false_2 (name = "test")) by exact Ht.
    destruct (bool_decide (name ∈ prototype_keys)); split; reflexivity.
  - intros name u o Hin. unfold connectDB, mongoDBConfig in Hin.
    repeat case_bool_decide; subst; cbn [url options] in Hin;
      repeat match type of Hin with
        | context [match ?x with _ => _ end] => destruct x eqn:?
        end;
      cbn in Hin; db_cases;
      split; intros Hssl; try reflexivity; try discriminate; congruence.
  - intros Hunset. unfold connectDB, mongoDBConfig.
    rewrite (bool_decide_eq_false_2 ("test" = "development")) by discriminate.
    rewrite (bool_decide_eq_false_2 ("test" = "production")) by discriminate.
    rewrite (bool_decide_eq_true_2 ("test" = "test")) by reflexivity.
    cbn [url options].
    destruct Hunset as [-> | ->]; cbn [or_default truthy_string negb];
      destruct (connect _ _); cbn; auto.
  - intros u Hu. split.
    + intros Huri. split.
      * unfold connectDB, mongoDBConfig.
        rewrite (bool_decide_eq_true_2 ("development" = "development"))
          by reflexivity.
        cbn [url options]. rewrite Huri. cbn [or_default]. rewrite Hu.
        cbn iota. rewrite Hu. cbn [negb]. destruct (connect _ _); cbn; auto.
      * unfold connectDB, mongoDBConfig.
        rewrite (bool_decide_eq_false_2 ("production" = "development"))
          by discriminate.
        rewrite (bool_decide_eq_true_2 ("production" = "production"))
          by reflexivity.
        cbn [url options]. rewrite Huri, Hu.
        cbn [negb]. destruct (connect _ _); cbn; auto.
    + intros Huri. unfold connectDB, mongoDBConfig.
      rewrite (bool_decide_eq_false_2 ("test" = "development")) by discriminate.
      rewrite (bool_decide_eq_false_2 ("test" = "production")) by discriminate.
      rewrite (bool_decide_eq_true_2 ("test" = "test")) by reflexivity.
      cbn [url options]. rewrite Huri. cbn [or_default]. rewrite Hu.
      cbn iota. rewrite Hu. cbn [negb]. destruct (connect _ _); cbn; auto.
Qed.

End DatabaseProps.
